(** * Integrated gradients for a served ResNet: a model of the notebook

    This development embeds [resnet_model_understanding.ipynb] and states
    the properties of its one numerical procedure: the construction of a
    straight path of images from a grey baseline to the input image, the
    collection of one weighted gradient map per path image, the summation
    of those maps, and the two presentation steps around it (the label
    lookup and the min-max normalisation of a gradient map).

    Conventions.
    - A tensor of shape [224, 224, 3] is its row-major flattening, a list
      of [pixels] scalars; every operation of the notebook on such a
      tensor is elementwise or a full reduction, so the flattening loses
      nothing that the notebook observes.  A batch is a list of images.
    - The notebook computes on float32 tensors (TensorFlow) and on float64
      arrays (numpy).  Scalars are therefore an interface, [Dtype], whose
      instances are IEEE binary32 and binary64 (from [SpecFloat], with
      signed zeros, infinities and NaN).  What holds for the structure of
      the computation is proved for every instance; what depends on the
      numbers is proved in the format the code computes in, and where a
      bound on the rounding is stated it is checked on every uint8 pixel
      value.
    - TensorFlow does not execute the arithmetic of the graph as it is
      written: its graph optimizer turns the division by a constant into
      a multiplication by the reciprocal of the constant and merges
      adjacent constant factors.  [preprocess_images] and [fractional]
      follow the graph as it is executed, since that decides the float32
      values.
    - The network and its automatic differentiation belong to TensorFlow
      and to the checked-out model code; they are parameters here.
    - Python exceptions are values of [exn]; a computation that may raise
      returns a [result]. *)

From Stdlib Require Import ZArith QArith Qabs Qcanon List Lia Ascii String SpecFloat.
From stdpp Require Import base list strings gmap pretty numbers.
From stdpp Require sorting.

Set Implicit Arguments.
Local Open Scope Z_scope.

(** ** Exceptions *)

Inductive exn : Type :=
| ValueError            (* incompatible shapes, reduction of an empty array,
                           predictions of unequal batch length *)
| InvalidArgumentError  (* TensorFlow: slice index out of bounds *)
| IndexError            (* Python: list index out of range *)
| StopIteration.        (* next() on an exhausted generator *)

Inductive result (A : Type) : Type :=
| Ok (a : A)
| Raise (e : exn).

Arguments Ok {A} a.
Arguments Raise {A} e.

Definition bind {A B : Type} (r : result A) (k : A -> result B) : result B :=
  match r with
  | Ok a => k a
  | Raise e => Raise e
  end.

Notation "x <- r ;; k" := (bind r (fun x => k))
  (at level 100, r at next level, right associativity, only parsing).

Definition result_map {A B : Type} (f : A -> B) (r : result A) : result B :=
  x <- r ;; Ok (f x).

(** A Python [for] loop whose body may raise: the body runs on the items in
    order and the first exception ends the loop. *)
Fixpoint for_each {S X : Type} (body : X -> S -> result S) (items : list X)
    (s : S) : result S :=
  match items with
  | [] => Ok s
  | x :: rest => s' <- body x s ;; for_each body rest s'
  end.

(** A comprehension [[f x for x in xs]] whose element expression may raise. *)
Fixpoint comprehension {X Y : Type} (f : X -> result Y) (xs : list X)
    : result (list Y) :=
  match xs with
  | [] => Ok []
  | x :: rest => y <- f x ;; ys <- comprehension f rest ;; Ok (y :: ys)
  end.

(** [range(lo, hi)]: empty when [hi <= lo]. *)
Definition py_range (lo hi : Z) : list Z := seqZ lo (hi - lo).

(** [xs[k]] on a Python list: a negative index counts from the end, an
    index outside [-len, len) raises IndexError. *)
Definition py_getitem {A : Type} (xs : list A) (k : Z) : result A :=
  let len := Z.of_nat (length xs) in
  let pos := if k <? 0 then len + k else k in
  if (0 <=? pos) && (pos <? len) then
    match xs !! Z.to_nat pos with
    | Some a => Ok a
    | None => Raise IndexError
    end
  else Raise IndexError.

(** ** Scalars *)

Class Dtype (T : Type) : Type := {
  lit : Z -> Z -> T;          (* the literal m * 2^e: 30 is lit 30 0, 0.5 is lit 1 (-1) *)
  dadd : T -> T -> T;
  dsub : T -> T -> T;
  dmul : T -> T -> T;
  ddiv : T -> T -> T;
  dleb : T -> T -> bool;
  isnan : T -> bool
}.

Declare Scope dtype_scope.
Delimit Scope dtype_scope with D.
Infix "+" := dadd : dtype_scope.
Infix "-" := dsub : dtype_scope.
Infix "*" := dmul : dtype_scope.
Infix "/" := ddiv : dtype_scope.

(** The value of a Python int used in float arithmetic. *)
Definition of_int {T} `{DT : Dtype T} (z : Z) : T := lit z 0.
Arguments of_int : simpl never.

(** IEEE 754 binary formats, round to nearest even. *)
Section IEEE.
Variables prec emax : Z.

Definition ieee_lit (m e : Z) : spec_float := binary_normalize prec emax m e false.

Definition ieee_isnan (x : spec_float) : bool :=
  match x with
  | S754_nan => true
  | _ => false
  end.

Definition ieee_dtype : Dtype spec_float := {|
  lit := ieee_lit;
  dadd := SFadd prec emax;
  dsub := SFsub prec emax;
  dmul := SFmul prec emax;
  ddiv := SFdiv prec emax;
  dleb := SFleb;
  isnan := ieee_isnan
|}.
End IEEE.

Definition float32 : Dtype spec_float := ieee_dtype 24 128.
Definition float64 : Dtype spec_float := ieee_dtype 53 1024.

(** Exact rationals, used for one remark on the sanity check only: they
    have no rounding, no overflow and no NaN, so that nothing about the
    numbers the notebook computes is proved at this instance. *)
Definition Qc_lit (m e : Z) : Qc :=
  if 0 <=? e then Qc_of_Z (m * 2 ^ e) else (Qc_of_Z m / Qc_of_Z (2 ^ (- e)))%Qc.

#[export] Instance exact : Dtype Qc := {|
  lit := Qc_lit;
  dadd := Qcplus;
  dsub := Qcminus;
  dmul := Qcmult;
  ddiv := Qcdiv;
  dleb := fun x y => bool_decide (x <= y)%Qc;
  isnan := fun _ => false
|}.

(** ** Tensors *)

Abbreviation image := list (only parsing).

Section Notebook.
Context {T : Type} `{DT : Dtype T}.
Local Open Scope dtype_scope.

(** The flattened size of the model's input shape; 224 * 224 * 3 in the
    notebook ([_DEFAULT_IMAGE_SIZE], [_NUM_CHANNELS]). *)
Variable pixels : nat.

(** [tf.zeros([1, 224, 224, 3])] and [np.zeros((224, 224, 3))]: one image. *)
Definition zeros : image T := replicate pixels (of_int 0).

(** Elementwise binary operation of two tensors of the same shape; other
    pairs of shapes are rejected (broadcasting between different shapes
    does not occur in the notebook and is not modelled). *)
Definition elementwise (op : T -> T -> T) (a b : image T) : result (image T) :=
  if (length a =? length b)%nat then Ok (zip_with op a b) else Raise ValueError.

Definition tf_multiply : image T -> image T -> result (image T) := elementwise dmul.
Definition np_add : image T -> image T -> result (image T) := elementwise dadd.

(** [np.sum(a)]: the sum of all entries (numpy's pairwise order of
    additions is not modelled; the order matters to rounding only). *)
Definition np_sum (a : image T) : T := fold_left dadd a (of_int 0).

(** [tf.concat([a, b], axis=0)]: the rows of [a] followed by those of
    [b]; the shapes must agree in every other dimension. *)
Definition tf_concat (a b : list (image T)) : result (list (image T)) :=
  match a, b with
  | r :: _, r' :: _ =>
      if (length r =? length r')%nat then Ok (a ++ b) else Raise ValueError
  | _, _ => Ok (a ++ b)
  end.

(** *** preprocess_images *)

(** [tf.to_float(images) / 255 - 0.5].  The division by the constant 255
    is executed as a multiplication by its reciprocal, which is computed
    once, in the tensor's format. *)
Definition preprocess_images (images : image T) : image T :=
  (fun x => x * (of_int 1 / of_int 255) - lit 1 (-1)) <$> images.

(** *** gradients_model_fn: the path *)

(** The constant by which the image is multiplied at step [i]:
    [i] times the reciprocal of [RIEMANN_STEPS]. *)
Definition path_constant (RIEMANN_STEPS i : Z) : T :=
  of_int i * (of_int 1 / of_int RIEMANN_STEPS).

(** [features * i / RIEMANN_STEPS].  The division by the constant is
    executed as a multiplication by its reciprocal, and the two constant
    factors are merged into one before the image is multiplied. *)
Definition fractional (RIEMANN_STEPS : Z) (features : image T) (i : Z) : image T :=
  (fun x => x * path_constant RIEMANN_STEPS i) <$> features.

(** [path_features = tf.zeros(...)] followed by the loop over
    [range(1, RIEMANN_STEPS + 1)]. *)
Definition build_path_features (RIEMANN_STEPS : Z) (features : image T)
    : result (list (image T)) :=
  for_each
    (fun i path => tf_concat path [fractional RIEMANN_STEPS features i])
    (py_range 1 (RIEMANN_STEPS + 1))
    [zeros].

(** *** gradients_model_fn: logits and gradients *)

(** [imagenet_resnet_v2(RESNET_SIZE, _LABEL_CLASSES)] in inference mode:
    the logits of one image.  On a batch the network acts on every row
    independently (batch normalisation uses its stored statistics when
    [is_training] is false). *)
Variable network : image T -> list T.

(** [tf.gradients] of the logit of class [c] at one image: a tensor of the
    shape of that image.  Because the rows of a batch are independent,
    the gradient of [target_logits] with respect to [path_features] is
    this gradient row by row. *)
Variable tf_gradient : nat -> image T -> image T.

(** The features dict given to the model function. *)
Record Features : Type := {
  images : image T;                (* 'images': a batch of ONE image *)
  most_likely_class : nat          (* 'most_likely_class': np.array([best_label]),
                                      of which the model function reads entry 0 *)
}.

(** [tf.squeeze] removes every dimension of size one: applied to the
    product of shape [1, RIEMANN_STEPS + 1, 224, 224, 3] it leaves a batch
    of gradient maps, unless the batch has a single row, in which case
    the batch dimension goes as well and one bare map is left. *)
Inductive squeezed : Type :=
| Batch (rows : list (image T))
| Collapsed (row : image T).

Definition tf_squeeze (rows : list (image T)) : squeezed :=
  match rows with
  | [g] => Collapsed g
  | _ => Batch rows
  end.

(** [t[:, c]] on the rows of a tensor: an index out of bounds is an error
    of the session run. *)
Definition tf_index {A : Type} (xs : list A) (c : nat) : result A :=
  match xs !! c with
  | Some a => Ok a
  | None => Raise InvalidArgumentError
  end.

(** The predictions dict of [gradients_model_fn]. *)
Record Predictions : Type := {
  path_features : list (image T);
  path_logits : list (list T);
  target_logits : list T;
  gradients : squeezed
}.

Definition gradients_model_fn (RIEMANN_STEPS : Z) (feats : Features)
    : result Predictions :=
  let features := preprocess_images (images feats) in
  path <- build_path_features RIEMANN_STEPS features ;;
  let c := most_likely_class feats in
  weighted <- comprehension
                (fun path_image => tf_multiply (tf_gradient c path_image) features)
                path ;;
  let logits := network <$> path in
  target <- comprehension (fun row => tf_index row c) logits ;;
  Ok {| path_features := path;
        path_logits := logits;
        target_logits := target;
        gradients := tf_squeeze weighted |}.

(** The shapes the notebook works with: the image has the model's input
    shape, a gradient has the shape of the image it is taken at, and the
    target class is one of the network's classes. *)
Definition well_shaped (feats : Features) : Prop :=
  length (images feats) = pixels /\
  (forall c x, length (tf_gradient c x) = length x) /\
  (forall x, (most_likely_class feats < length (network x))%nat).

(** The weighted gradient of one path image: the gradient of the target
    logit there, times the normalised image. *)
Definition weighted_gradient (feats : Features) (path_image : image T) : image T :=
  zip_with dmul (tf_gradient (most_likely_class feats) path_image)
           (preprocess_images (images feats)).

(** *** Estimator.predict *)

(** One yielded item: the predictions of one row. *)
Record gradient_dict : Type := {
  row_path_features : image T;
  row_path_logits : list T;
  row_target_logits : T;
  row_gradients : image T
}.

Fixpoint rows_of (pf : list (image T)) (pl : list (list T)) (tl : list T)
    (gs : list (image T)) : list gradient_dict :=
  match pf, pl, tl, gs with
  | f :: pf', l :: pl', t :: tl', g :: gs' =>
      {| row_path_features := f; row_path_logits := l;
         row_target_logits := t; row_gradients := g |} :: rows_of pf' pl' tl' gs'
  | _, _, _, _ => []
  end.

(** [Estimator.predict] on a dict of predictions yields one dict per row
    and refuses predictions whose batch lengths differ.  A collapsed
    gradient tensor has the image height as its first dimension, which
    is not the batch length 1 of the other entries. *)
Definition predict (p : Predictions) : result (list gradient_dict) :=
  match gradients p with
  | Batch gs =>
      if (length (path_logits p) =? length (path_features p))%nat
         && (length (target_logits p) =? length (path_features p))%nat
         && (length gs =? length (path_features p))%nat
      then Ok (rows_of (path_features p) (path_logits p) (target_logits p) gs)
      else Raise ValueError
  | Collapsed _ => Raise ValueError
  end.

(** A generator runs nothing before the first [next]: an exception of the
    model function is raised by the first [next], an exhausted generator
    raises StopIteration. *)
Definition generator : Type := result (list gradient_dict).

Definition next (g : generator) : result (gradient_dict * generator) :=
  rows <- g ;;
  match rows with
  | [] => Raise StopIteration
  | r :: rest => Ok (r, Ok rest)
  end.

(** *** The integration loop (the cell that computes the gradients) *)

Inductive pickled : Type :=
| PArray (a : image T)
| PPairs (l : list (T * T)).

(** [os.path.join(dir, name)] (POSIX): a name that starts with a slash
    replaces the directory; otherwise the two are put together, with a
    slash between them unless the directory is empty or ends in one. *)
Definition starts_with_slash (s : string) : bool :=
  match s with
  | String c _ => Ascii.eqb c "/"%char
  | EmptyString => false
  end.

Fixpoint ends_with_slash (s : string) : bool :=
  match s with
  | EmptyString => false
  | String c rest =>
      match rest with
      | EmptyString => Ascii.eqb c "/"%char
      | String _ _ => ends_with_slash rest
      end
  end.

Definition dir_prefix (dir : string) : string :=
  match dir with
  | EmptyString => EmptyString
  | String _ _ => if ends_with_slash dir then dir else dir +:+ "/"
  end.

Definition os_path_join (dir name : string) : string :=
  if starts_with_slash name then name else dir_prefix dir +:+ name.

Record cell_state : Type := {
  gradient_predictions : generator;
  int_gradients : image T;
  gradients_and_logits : list (T * T);
  files : gmap string pickled
}.

Variable IMAGE_DIR : string.

(** The body of the loop: read the next row, pickle its gradient map, add
    the map to the accumulator, record the sum of the map and the target
    logit.  (What the body prints is not kept.) *)
Definition integration_step (i : Z) (st : cell_state) : result cell_state :=
  nx <- next (gradient_predictions st) ;;
  let gradient_map := row_gradients (fst nx) in
  let files' :=
    <[ os_path_join IMAGE_DIR ("path_gradient_" +:+ pretty i +:+ ".pkl")
       := PArray gradient_map ]> (files st) in
  sum <- np_add (int_gradients st) gradient_map ;;
  Ok {| gradient_predictions := snd nx;
        int_gradients := sum;
        gradients_and_logits :=
          gradients_and_logits st ++ [(np_sum gradient_map, row_target_logits (fst nx))];
        files := files' |}.

(** The whole cell: the loop over [range(0, RIEMANN_STEPS + 1)], then the
    two final pickles. *)
Definition integration_cell (RIEMANN_STEPS : Z) (g : generator)
    (fs : gmap string pickled) : result cell_state :=
  st <- for_each integration_step (py_range 0 (RIEMANN_STEPS + 1))
          {| gradient_predictions := g;
             int_gradients := zeros;
             gradients_and_logits := [];
             files := fs |} ;;
  Ok {| gradient_predictions := gradient_predictions st;
        int_gradients := int_gradients st;
        gradients_and_logits := gradients_and_logits st;
        files :=
          <[ os_path_join IMAGE_DIR "gradients_and_logits.pkl"
             := PPairs (gradients_and_logits st) ]>
          (<[ os_path_join IMAGE_DIR "int_gradients.pkl"
              := PArray (int_gradients st) ]> (files st)) |}.

(** Two generators that yield the same gradient maps (or raise the same
    exception), and two outcomes of the loop that agree on what is left
    to read and on the accumulator (or on the exception). *)
Definition same_maps (g1 g2 : generator) : Prop :=
  result_map (fmap row_gradients) g1 = result_map (fmap row_gradients) g2.

Definition agree (r1 r2 : result cell_state) : Prop :=
  match r1, r2 with
  | Ok s1, Ok s2 =>
      same_maps (gradient_predictions s1) (gradient_predictions s2) /\
      int_gradients s1 = int_gradients s2
  | Raise e1, Raise e2 => e1 = e2
  | _, _ => False
  end.

(** *** The sanity check (the cell that plots the integrated gradient) *)

(** The value formatted by
    ['sum of integrated gradients: %f' % (np.sum(int_gradients) / RIEMANN_STEPS + 1)]. *)
Definition printed_sum_of_integrated_gradients (RIEMANN_STEPS : Z)
    (int_grads : image T) : T :=
  np_sum int_grads / of_int RIEMANN_STEPS + of_int 1.

(** The value formatted by ['total logit diff: %f' % (...)]. *)
Definition printed_total_logit_diff (RIEMANN_STEPS : Z)
    (g_and_l : list (T * T)) : result T :=
  last_pair <- py_getitem g_and_l RIEMANN_STEPS ;;
  first_pair <- py_getitem g_and_l 0 ;;
  Ok (snd last_pair - snd first_pair).

(** *** Visualisation: min-max normalisation of a gradient map *)

(** [np.minimum] and [np.maximum] pass a NaN operand on. *)
Definition np_minimum (a b : T) : T :=
  if isnan a then a else if isnan b then b else if dleb a b then a else b.
Definition np_maximum (a b : T) : T :=
  if isnan a then a else if isnan b then b else if dleb a b then b else a.

(** [np.ndarray.min] / [np.ndarray.max] over all entries; an empty array
    has no minimum. *)
Definition ndarray_reduce (op : T -> T -> T) (a : image T) : result T :=
  match a with
  | [] => Raise ValueError
  | x :: rest => Ok (fold_left op rest x)
  end.
Definition ndarray_min : image T -> result T := ndarray_reduce np_minimum.
Definition ndarray_max : image T -> result T := ndarray_reduce np_maximum.

(** The array shown by the first [plt.imshow] of both plotting cells:
    [(gradient_map - min_grad) / (max_grad - min_grad)].  The division
    of an array by a numpy scalar raises nothing. *)
Definition minmax_normalized (gradient_map : image T) : result (image T) :=
  min_grad <- ndarray_min gradient_map ;;
  max_grad <- ndarray_max gradient_map ;;
  Ok ((fun x => (x - min_grad) / (max_grad - min_grad)) <$> gradient_map).

(** *** The path as the spec words it *)


(** The normalisation of the accumulated sum that the spec asks for:
    the sum over all pixels divided by the step count. *)
Definition spec_normalized_sum (N : Z) (int_grads : image T) : T :=
  np_sum int_grads / of_int N.

End Notebook.

Arguments Features T : clear implicits.
Arguments squeezed T : clear implicits.
Arguments Predictions T : clear implicits.
Arguments gradient_dict T : clear implicits.
Arguments generator T : clear implicits.
Arguments pickled T : clear implicits.
Arguments cell_state T : clear implicits.

(** ** The label lookup (the cell that prints probabilities and class names) *)

(** [classval = [labels[x - 1] for x in classval]]. *)
Definition class_names (labels : list string) (classval : list Z) : result (list string) :=
  comprehension (fun x => py_getitem labels (x - 1)) classval.

(** The label at a position of the label file, counted from 0: the file
    has no label at a negative position or past its end. *)
Definition label_at (labels : list string) (k : Z) : option string :=
  if k <? 0 then None else labels !! Z.to_nat k.

(** ** The error-handling requirement as the spec words it *)

(** A normalisation that is guarded: it fails with an error, or it returns
    an array without NaN. *)
Definition guarded_or_fails {T} `{DT : Dtype T} (r : result (image T)) : Prop :=
  (exists e, r = Raise e) \/
  (exists v, r = Ok v /\ forall x, x ∈ v -> isnan x = false).

(** A computation that fails fast: it raises. *)
Definition fails_fast {A : Type} (r : result A) : Prop := exists e, r = Raise e.

(** ** A small model to run the notebook on

    Class [c] scores [c + 1] times the sum of the pixels; the gradient of
    that logit is [c + 1] at every pixel. *)

Definition toy_network {T} `{DT : Dtype T} (classes : nat) (x : image T) : list T :=
  (fun c => of_int (Z.of_nat c + 1) * np_sum x)%D <$> seq 0 classes.

Definition toy_gradient {T} `{DT : Dtype T} (c : nat) (x : image T) : image T :=
  (fun _ => of_int (Z.of_nat c + 1)) <$> x.

(** Inputs for the examples: a two-pixel float32 image. *)
Definition float32_image : image spec_float := [ieee_lit 24 128 255 0; ieee_lit 24 128 0 0].

(** One yielded row with a given logit and gradient map, and three labels. *)
Definition example_row (logit : spec_float) (g : image spec_float)
    : gradient_dict spec_float :=
  {| row_path_features := g; row_path_logits := [logit];
     row_target_logits := logit; row_gradients := g |}.

Definition example_labels : list string := ["tench"; "goldfish"; "great white shark"].

(** * The rest of the notebook *)

(** ** Reading back what the integration cell pickled *)

(** The file that holds the gradient map of path image [i]. *)
Definition path_gradient_file (dir : string) (i : Z) : string :=
  os_path_join dir ("path_gradient_" +:+ pretty i +:+ ".pkl").

(** [pickle.load(open(path, "rb"))]: the object stored under [path];
    [None] when there is no such file (the load raises). *)
Definition pickle_load {T : Type} (fs : gmap string (pickled T)) (path : string)
    : option (pickled T) :=
  fs !! path.

(** The pair appended to [gradients_and_logits] for one yielded row. *)
Definition gradient_and_logit {T : Type} `{DT : Dtype T} (r : gradient_dict T) : T * T :=
  (np_sum (row_gradients r), row_target_logits r).

(** ** The second plot: absolute deviation from the median *)

(** [a < b], from the comparison of the scalar type: in IEEE arithmetic
    [a <= b] holds and [b <= a] fails exactly when [a < b]. *)
Definition dltb {T : Type} `{DT : Dtype T} (a b : T) : bool :=
  dleb a b && negb (dleb b a).

(** [np.abs] on an entry. *)
Class Dabs (T : Type) : Type := dabs : T -> T.

#[export] Instance ieee_abs : Dabs spec_float := SFabs.

Section Deviation.
Context {T : Type} `{DT : Dtype T} `{DA : Dabs T}.
Local Open Scope dtype_scope.

(** [AMPLIFICATION = 2.0]. *)
Definition AMPLIFICATION : T := lit 2 0.

(** Python's [max(a, b)] on two scalars: [b] if [b > a], else [a]. *)
Definition py_max (a b : T) : T := if dltb a b then b else a.

(** The entries in ascending order. *)
Definition sorted_entries (a : image T) : image T :=
  @sorting.merge_sort T (fun x y => dleb x y = true)
    (fun x y => decide (dleb x y = true)) a.

(** [np.median] over all entries: NaN if an entry is NaN; else the middle
    entry of the sorted array, or for an even number of entries the mean
    of the two middle ones, [(lo + hi) / 2]; the mean of no entry at all
    is [0 / 0]. *)
Definition np_median (a : image T) : T :=
  match list_find (fun x => isnan x = true) a with
  | Some (_, nan) => nan
  | None =>
      let n := length a in
      let s := sorted_entries a in
      let entry k := default (of_int 0) (s !! k) in
      if (n =? 0)%nat then of_int 0 / of_int 0
      else if Nat.even n then (entry (n / 2 - 1)%nat + entry (n / 2)%nat) / of_int 2
      else entry (n / 2)%nat
  end.

(** The array shown by the second [plt.imshow] of the plotting cells:
    [np.abs(gradient_map - median_grad) * AMPLIFICATION
     / max(max_grad - median_grad, median_grad - min_grad)]. *)
Definition deviation_normalized (gradient_map : image T) : result (image T) :=
  min_grad <- ndarray_min gradient_map ;;
  max_grad <- ndarray_max gradient_map ;;
  let median_grad := np_median gradient_map in
  Ok ((fun x => dabs (x - median_grad) * AMPLIFICATION
                / py_max (max_grad - median_grad) (median_grad - min_grad))
        <$> gradient_map).

End Deviation.

(** ** The notebook's own inputs: uint8 images in float32 *)

(** A pixel value of the image array built from the PIL image. *)
Definition uint8 (v : Z) : Prop := 0 <= v <= 255.

(** [tf.to_float] of a uint8 value: exact. *)
Definition tf_to_float (v : Z) : spec_float := ieee_lit 24 128 v 0.

(** One pixel through [preprocess_images], in float32. *)
Definition normalized_uint8 (v : Z) : spec_float :=
  dsub (Dtype:=float32)
       (dmul (Dtype:=float32) (tf_to_float v)
             (ddiv (Dtype:=float32) (of_int (DT:=float32) 1) (of_int (DT:=float32) 255)))
       (lit (Dtype:=float32) 1 (-1)).

(** Pixel [x] of the image at step [i] of the path: zero at step 0 (the
    image [tf.zeros]), [x] times the constant of step [i] afterwards. *)
Definition path_pixel (N : Z) (x : spec_float) (i : Z) : spec_float :=
  if i =? 0 then of_int (DT:=float32) 0
  else dmul (Dtype:=float32) x (path_constant (DT:=float32) N i).



Definition is_finite (x : spec_float) : bool :=
  match x with
  | S754_zero _ | S754_finite _ _ _ => true
  | _ => false
  end.

(** Equal, or adjacent in float32. *)
Definition within_one_ulp (x y : spec_float) : Prop :=
  y = x \/ y = SFsucc 24 128 x \/ y = SFpred 24 128 x.




(** Decidable checks used to run through all pixel values. *)
Definition same_float (a b : spec_float) : bool :=
  match a, b with
  | S754_zero s, S754_zero s' => Bool.eqb s s'
  | S754_infinity s, S754_infinity s' => Bool.eqb s s'
  | S754_nan, S754_nan => true
  | S754_finite s m e, S754_finite s' m' e' => Bool.eqb s s' && Pos.eqb m m' && Z.eqb e e'
  | _, _ => false
  end.

Fixpoint strictly_ascending (l : list spec_float) : bool :=
  match l with
  | [] => true
  | x :: rest => forallb (SFltb x) rest && strictly_ascending rest
  end.

Definition within_one_ulp_b (x y : spec_float) : bool :=
  same_float y x || same_float y (SFsucc 24 128 x) || same_float y (SFpred 24 128 x).



(** The last image of the path against the image itself, for every step
    count up to a bound and every uint8 pixel value. *)
Definition path_end_check (same : spec_float -> spec_float -> bool) (bound : Z) : bool :=
  let fs := normalized_uint8 <$> seqZ 0 256 in
  forallb (fun N =>
    let k := path_constant (DT:=float32) N N in
    forallb (fun f => same f (dmul (Dtype:=float32) f k)) fs)
    (seqZ 1 bound).


(** ** The label cell *)

(** [s[:-1]]: a string without its last character. *)
Fixpoint but_last (s : string) : string :=
  match s with
  | EmptyString => EmptyString
  | String c rest =>
      match rest with
      | EmptyString => EmptyString
      | String _ _ => String c (but_last rest)
      end
  end.

(** The loop over the rows that [csv.reader] yields (each row the list of
    its fields): [labels.append(row[1][:-1])]. *)
Definition read_labels (label_reader : list (list string)) : result (list string) :=
  for_each (fun row labels => field <- py_getitem row 1 ;; Ok (labels ++ [but_last field]))
           label_reader [].

Section LabelCell.
Context {P : Type}.

(** Python's [str] on a probability. *)
Variable str : P -> string.

(** [[str(p) + ' : ' + c for c, p in zip(classval, probsval)]]. *)
Definition class_and_probs (classval : list string) (probsval : list P) : list string :=
  zip_with (fun c p => str p +:+ " : " +:+ c) classval probsval.

(** [for j in items: print(lines[j])]: the lines printed, and how the loop
    ended. *)
Fixpoint print_lines (lines : list string) (items : list Z) (printed : list string)
    : list string * result unit :=
  match items with
  | [] => (printed, Ok tt)
  | j :: rest =>
      match py_getitem lines j with
      | Ok line => print_lines lines rest (printed ++ [line])
      | Raise e => (printed, Raise e)
      end
  end.

(** The cell from the rows of the label file on. *)
Definition label_cell (label_reader : list (list string)) (classval : list Z)
    (probsval : list P) : list string * result unit :=
  match (labels <- read_labels label_reader ;; class_names labels classval) with
  | Ok classval => print_lines (class_and_probs classval probsval) (py_range 0 5) []
  | Raise e => ([], Raise e)
  end.

End LabelCell.

(** ** resize_and_pad_image: where the scaled image goes *)

(** What the function can raise. *)
Inductive resize_exn : Type :=
| ZeroDivisionError   (* float division by zero *)
| OverflowError       (* int too large for a float, int() of an infinity *)
| NanToInteger        (* ValueError: int() of a NaN *)
| EmptySizeError.     (* ValueError of [img.resize]: height and width must be > 0 *)

Definition and_then {A B : Type} (r : resize_exn + A) (k : A -> resize_exn + B)
    : resize_exn + B :=
  match r with
  | inl e => inl e
  | inr a => k a
  end.

(** [float(z)], and the conversion of an int operand of a float
    operation: to the nearest float64. *)
Definition py_float (z : Z) : resize_exn + spec_float :=
  let f := ieee_lit 53 1024 z 0 in
  if is_finite f then inr f else inl OverflowError.

(** [a / b] on floats. *)
Definition py_truediv (a b : spec_float) : resize_exn + spec_float :=
  match b with
  | S754_zero _ => inl ZeroDivisionError
  | _ => inr (SFdiv 53 1024 a b)
  end.

(** [int(x)] on a float: truncation towards zero. *)
Definition py_int (x : spec_float) : resize_exn + Z :=
  match x with
  | S754_zero _ => inr 0
  | S754_finite s m e =>
      let a := Z.shiftl (Z.pos m) e in
      inr (if s then - a else a)
  | S754_infinity _ => inl OverflowError
  | S754_nan => inl NanToInteger
  end.

(** [_DEFAULT_IMAGE_SIZE = 224]. *)
Definition _DEFAULT_IMAGE_SIZE : Z := 224.

(** [ratio = float(output_image_dim) / max(old_size)]. *)
Definition ratio_of (output_image_dim longest : Z) : resize_exn + spec_float :=
  and_then (py_float output_image_dim) (fun dim =>
  and_then (py_float longest) (fun l => py_truediv dim l)).

(** [int(x * ratio)]. *)
Definition scaled (ratio : spec_float) (x : Z) : resize_exn + Z :=
  and_then (py_float x) (fun fx => py_int (SFmul 53 1024 fx ratio)).

(** [img.resize(new_size, Image.ANTIALIAS)], as far as the size goes: PIL
    refuses a size with a side that is not positive. *)
Definition pil_resize (new_size : Z * Z) : resize_exn + Z * Z :=
  if (0 <? fst new_size) && (0 <? snd new_size) then inr new_size
  else inl EmptySizeError.

(** The size the image is resized to and the corner of the canvas
    (of [output_image_dim] by [output_image_dim] black pixels) where it
    is pasted. *)
Record placement : Type := {
  new_size : Z * Z;
  paste_at : Z * Z
}.

(** The geometry of [resize_and_pad_image]; the resampling itself is
    PIL's. [old_size] is (width, height). *)
Definition resize_and_pad_image (old_size : Z * Z) (output_image_dim : Z)
    : resize_exn + placement :=
  and_then (ratio_of output_image_dim (Z.max (fst old_size) (snd old_size))) (fun ratio =>
  and_then (scaled ratio (fst old_size)) (fun w =>
  and_then (scaled ratio (snd old_size)) (fun h =>
  and_then (pil_resize (w, h)) (fun size =>
  inr {| new_size := size;
         paste_at := ((output_image_dim - fst size) `div` 2,
                      (output_image_dim - snd size) `div` 2) |})))).

(** The check run over all sizes up to a bound: with the ratio for a
    longest side [m], that side is scaled to 223 or 224, and every
    shorter side [x] to something between 0 and that, which is 0 exactly
    when [224 * x < m]. *)
Definition sides_check (bound : Z) : bool :=
  forallb (fun m =>
    match ratio_of _DEFAULT_IMAGE_SIZE m with
    | inr ratio =>
        match scaled ratio m with
        | inr b =>
            ((b =? 223) || (b =? 224)) &&
            forallb (fun x => match scaled ratio x with
                              | inr a => (0 <=? a) && (a <=? b)
                                         && Bool.eqb (a =? 0) (224 * x <? m)
                              | inl _ => false
                              end) (seqZ 1 m)
        | inl _ => false
        end
    | inl _ => false
    end) (seqZ 1 bound).

(** ** Inputs for the examples of this part *)

(** Two rows as a generator yields them. *)
Definition float32_rows : list (gradient_dict spec_float) :=
  [example_row (ieee_lit 24 128 1 0) float32_image;
   example_row (ieee_lit 24 128 2 0) float32_image].

(** Three pixel values, and three rows of the label file as the csv
    reader splits them at the colon. *)
Definition example_pixels : list Z := [0; 128; 255].

Definition example_label_rows : list (list string) :=
  [["{0"; " tench,"]; [" 1"; " goldfish,"]; [" 2"; " great white shark,"]].

(** * Properties *)

(** ** The result monad and the loops *)

Lemma bind_Ok {A B : Type} (a : A) (k : A -> result B) : bind (Ok a) k = k a.
Proof. reflexivity. Qed.

Lemma comprehension_total {X Y : Type} (f : X -> result Y) (g : X -> Y) (xs : list X) :
  (forall x, x ∈ xs -> f x = Ok (g x)) -> comprehension f xs = Ok (g <$> xs).
Proof.
  induction xs as [|x xs IH]; intros Hf; simpl; [reflexivity|].
  rewrite Hf by apply list_elem_of_here. simpl.
  rewrite IH; [reflexivity|].
  intros y Hy. apply Hf. by apply list_elem_of_further.
Qed.

Lemma py_range_length (lo hi : Z) : length (py_range lo hi) = Z.to_nat (hi - lo).
Proof. apply length_seqZ. Qed.

Lemma py_range_lookup (lo hi : Z) (k : nat) :
  lo + Z.of_nat k < hi -> py_range lo hi !! k = Some (lo + Z.of_nat k).
Proof. intros Hk. apply lookup_seqZ_lt. lia. Qed.

Lemma py_range_empty (lo hi : Z) : hi <= lo -> py_range lo hi = [].
Proof.
  intros Hle. apply length_zero_iff_nil. rewrite py_range_length. lia.
Qed.

(** ** The path, for every scalar type *)

Section Path.
Context {T : Type} `{DT : Dtype T}.
Variable pixels : nat.

Lemma zeros_length : length (zeros (T:=T) pixels) = pixels.
Proof. apply length_replicate. Qed.

Lemma fractional_length (N : Z) (features : image T) (i : Z) :
  length (fractional N features i) = length features.
Proof. apply length_fmap. Qed.

Lemma concat_loop (N : Z) (features : image T) (items : list Z)
    (first : image T) (acc : list (image T)) :
  length first = length features ->
  for_each (fun i path => tf_concat path [fractional N features i]) items (first :: acc)
  = Ok (first :: acc ++ (fractional N features <$> items)).
Proof.
  intros Hlen. revert acc.
  induction items as [|i items IH]; intros acc; simpl.
  - by rewrite app_nil_r.
  - rewrite fractional_length, Hlen, Nat.eqb_refl. simpl.
    rewrite (IH (acc ++ [fractional N features i])).
    by rewrite <- app_assoc.
Qed.

(** With an image of the model's shape the loop raises nothing and the
    path is the zero image followed by the fractional images. *)
Lemma build_path_features_rows (N : Z) (features : image T) :
  length features = pixels ->
  build_path_features pixels N features
  = Ok (zeros pixels :: (fractional N features <$> py_range 1 (N + 1))).
Proof.
  intros Hlen. unfold build_path_features.
  rewrite concat_loop by (rewrite zeros_length; congruence).
  reflexivity.
Qed.

(** Below one step the loop body never runs. *)
Lemma build_path_features_degenerate (N : Z) (features : image T) :
  N < 1 -> build_path_features pixels N features = Ok [zeros pixels].
Proof.
  intros HN. unfold build_path_features.
  rewrite py_range_empty by lia. reflexivity.
Qed.

Lemma path_rows_length (N : Z) (features : image T) :
  length (zeros pixels :: (fractional N features <$> py_range 1 (N + 1)))
  = S (Z.to_nat N).
Proof.
  simpl. rewrite length_fmap, py_range_length. f_equal. lia.
Qed.


End Path.

(** ** The gradient collector, for every scalar type *)

Section Gradients.
Context {T : Type} `{DT : Dtype T}.
Variable pixels : nat.
Variable network : image T -> list T.
Variable tf_gradient : nat -> image T -> image T.

Lemma preprocess_images_length (raw : image T) :
  length (preprocess_images raw) = length raw.
Proof. apply length_fmap. Qed.

Lemma path_rows_shape (N : Z) (features : image T) (row : image T) :
  length features = pixels ->
  row ∈ zeros pixels :: (fractional N features <$> py_range 1 (N + 1)) ->
  length row = pixels.
Proof.
  intros Hlen [->|Hin]%elem_of_cons; [apply zeros_length|].
  apply list_elem_of_fmap in Hin as (i & -> & _).
  by rewrite fractional_length.
Qed.

(** On well-shaped input the model function raises nothing; its path is
    the zero image followed by the fractional images and its gradient
    maps are the weighted gradients of the path images, in order. *)
Lemma gradients_model_fn_runs (N : Z) (feats : Features T) :
  well_shaped pixels network tf_gradient feats ->
  exists preds,
    gradients_model_fn pixels network tf_gradient N feats = Ok preds /\
    path_features preds
    = zeros pixels
      :: (fractional N (preprocess_images (images feats)) <$> py_range 1 (N + 1)) /\
    path_logits preds = network <$> path_features preds /\
    length (target_logits preds) = length (path_features preds) /\
    gradients preds
    = tf_squeeze (weighted_gradient tf_gradient feats <$> path_features preds).
Proof.
  intros (Hlen & Hgrad & Hclass).
  assert (Hfeat : length (preprocess_images (images feats)) = pixels)
    by by rewrite preprocess_images_length.
  unfold gradients_model_fn.
  rewrite build_path_features_rows, bind_Ok by done.
  rewrite (comprehension_total _ (weighted_gradient tf_gradient feats)); last first.
  { intros row Hrow. unfold tf_multiply, elementwise.
    rewrite Hgrad, (@path_rows_shape N _ _ Hfeat Hrow), Hfeat, Nat.eqb_refl.
    reflexivity. }
  rewrite bind_Ok.
  rewrite (comprehension_total _
             (fun row => default (of_int 0) (row !! most_likely_class feats)));
    last first.
  { intros row Hrow. apply list_elem_of_fmap in Hrow as (x & -> & _).
    unfold tf_index.
    destruct (lookup_lt_is_Some_2 (network x) _ (Hclass x)) as [v ->].
    reflexivity. }
  eexists. split; [reflexivity|]. simpl.
  repeat split. by rewrite !length_fmap.
Qed.

End Gradients.

(** C7, as the code has it.  A step count below one is not rejected: the
    loop over [range(1, N + 1)] is empty, no division by N takes place,
    and the path is the single all-zero baseline image, whatever the
    image; on well-shaped input the model function returns its
    predictions, with one gradient map, that of the baseline; and below
    zero the body of the integration loop never runs, so that the cell
    ends without reading the generator, with an all-zero
    IntegratedGradient. *)
Theorem degenerate_step_count_is_not_rejected {T : Type} `{DT : Dtype T}
    (pixels : nat) (network : image T -> list T)
    (tf_gradient : nat -> image T -> image T) (N : Z) (feats : Features T) :
  N < 1 ->
  build_path_features pixels N (preprocess_images (images feats)) = Ok [zeros pixels] /\
  (well_shaped pixels network tf_gradient feats ->
   exists preds,
     gradients_model_fn pixels network tf_gradient N feats = Ok preds /\
     path_features preds = [zeros pixels] /\
     gradients preds
     = Collapsed (zip_with dmul (tf_gradient (most_likely_class feats) (zeros pixels))
                           (preprocess_images (images feats)))) /\
  (N < 0 ->
   forall (dir : string) (g : generator T) (fs : gmap string (pickled T)),
   exists st,
     integration_cell pixels dir N g fs = Ok st /\
     gradient_predictions st = g /\
     int_gradients st = zeros pixels /\
     gradients_and_logits st = []).
Proof.
  intros HN. split; [by apply build_path_features_degenerate|]. split.
  - intros Hshape.
    destruct (gradients_model_fn_runs N Hshape) as (preds & Hrun & Hpath & _ & _ & Hgrads).
    rewrite py_range_empty in Hpath by lia.
    exists preds. split; [exact Hrun|]. split; [exact Hpath|].
    rewrite Hgrads, Hpath. reflexivity.
  - intros HN0 dir g fs. unfold integration_cell.
    rewrite py_range_empty by lia. simpl. eexists. split; [reflexivity|].
    simpl. repeat split.
Qed.

(** ** The integrator, for every scalar type *)

Section Integrator.
Context {T : Type} `{DT : Dtype T}.
Variable pixels : nat.

Lemma rows_of_gradients (pf : list (image T)) (pl : list (list T)) (tl : list T)
    (gs : list (image T)) :
  length pl = length pf -> length tl = length pf -> length gs = length pf ->
  row_gradients <$> rows_of pf pl tl gs = gs.
Proof.
  revert pl tl gs.
  induction pf as [|f pf IH]; intros [|l pl] [|t tl] [|g gs]; simpl;
    try discriminate; try reflexivity.
  intros [=Hl] [=Ht] [=Hg]. f_equal. by apply IH.
Qed.

(** One pass of the loop body over rows whose maps have the shape of the
    accumulator: nothing is raised and the accumulator is the elementwise
    sum of the maps read, added in the order read. *)
Lemma integration_loop_runs (dir : string) (items : list Z)
    (rows : list (gradient_dict T)) (acc : image T) (gl : list (T * T))
    (fs : gmap string (pickled T)) :
  (length items <= length rows)%nat ->
  length acc = pixels ->
  Forall (fun r => length (row_gradients r) = pixels) rows ->
  exists st,
    for_each (integration_step dir) items
      {| gradient_predictions := Ok rows; int_gradients := acc;
         gradients_and_logits := gl; files := fs |} = Ok st /\
    int_gradients st
    = foldl (zip_with dadd) acc (row_gradients <$> take (length items) rows) /\
    gradient_predictions st = Ok (drop (length items) rows) /\
    length (gradients_and_logits st) = (length gl + length items)%nat.
Proof.
  revert rows acc gl fs.
  induction items as [|i items IH]; intros rows acc gl fs Hn Hacc Hrows; simpl.
  - eexists. split; [reflexivity|]. simpl. rewrite drop_0. repeat split. lia.
  - destruct rows as [|r rows]; simpl in Hn; [lia|].
    apply Forall_cons_1 in Hrows as [Hr Hrows].
    unfold integration_step at 1. simpl.
    unfold np_add, elementwise. rewrite Hacc, Hr, Nat.eqb_refl. simpl.
    edestruct (IH rows (zip_with dadd acc (row_gradients r))) as (st & -> & Hig & Hgen & Hgl);
      [lia | rewrite length_zip_with; lia | exact Hrows |].
    eexists. split; [reflexivity|]. split; [exact Hig|]. split; [exact Hgen|].
    rewrite Hgl, length_app. simpl. lia.
Qed.

Lemma integration_step_agree (dir1 dir2 : string) (i : Z) (s1 s2 : cell_state T) :
  agree (Ok s1) (Ok s2) ->
  agree (integration_step dir1 i s1) (integration_step dir2 i s2).
Proof.
  intros [Hgen Hacc]. unfold integration_step.
  destruct s1 as [g1 a1 l1 f1], s2 as [g2 a2 l2 f2]; simpl in *. subst a2.
  unfold same_maps in Hgen.
  destruct g1 as [rows1|e1], g2 as [rows2|e2]; simpl in Hgen; try discriminate.
  - injection Hgen as Hmaps.
    destruct rows1 as [|r1 rows1], rows2 as [|r2 rows2]; simpl in Hmaps;
      try discriminate; [reflexivity|].
    injection Hmaps as Hr Hrest. simpl. rewrite Hr.
    destruct (np_add a1 (row_gradients r2)); simpl; [|reflexivity].
    split; [|reflexivity]. unfold same_maps. simpl. f_equal. exact Hrest.
  - by injection Hgen as ->.
Qed.

Lemma integration_loop_agree (dir1 dir2 : string) (items : list Z)
    (s1 s2 : cell_state T) :
  agree (Ok s1) (Ok s2) ->
  agree (for_each (integration_step dir1) items s1)
        (for_each (integration_step dir2) items s2).
Proof.
  revert s1 s2.
  induction items as [|i items IH]; intros s1 s2 Hagree; simpl; [exact Hagree|].
  pose proof (integration_step_agree dir1 dir2 i Hagree) as Hstep.
  destruct (integration_step dir1 i s1) as [s1'|e1],
           (integration_step dir2 i s2) as [s2'|e2]; simpl in *;
    try contradiction; [by apply IH | exact Hstep].
Qed.

End Integrator.

(** C8.  The integrator is deterministic: two runs of the accumulation over
    the same sequence of per-step gradient maps, in the same order, end in
    the same IntegratedGradient (or in the same exception), whatever else
    differs between the runs: the logits that come with the maps, the files
    already present, the output directory.  Holds for every scalar type,
    floating point included, because the additions are made in one fixed
    order. *)
Theorem integrator_is_deterministic {T : Type} `{DT : Dtype T}
    (pixels : nat) (N : Z) (dir1 dir2 : string) (g1 g2 : generator T)
    (fs1 fs2 : gmap string (pickled T)) :
  result_map (fmap row_gradients) g1 = result_map (fmap row_gradients) g2 ->
  result_map int_gradients (integration_cell pixels dir1 N g1 fs1)
  = result_map int_gradients (integration_cell pixels dir2 N g2 fs2).
Proof.
  intros Hmaps. unfold integration_cell.
  match goal with
  | |- context [for_each (integration_step dir1) ?items ?s1] =>
      match goal with
      | |- context [for_each (integration_step dir2) items ?s2] =>
          pose proof (@integration_loop_agree T DT dir1 dir2 items s1 s2) as Hloop
      end
  end.
  specialize (Hloop (conj Hmaps eq_refl)).
  destruct (for_each (integration_step dir1) _ _) as [s1|e1],
           (for_each (integration_step dir2) _ _) as [s2|e2]; simpl in *;
    try contradiction.
  - destruct Hloop as [_ Hacc]. by rewrite Hacc.
  - by subst.
Qed.

(** ** From the model function to the integrated gradient *)

Section Pipeline.
Context {T : Type} `{DT : Dtype T}.
Variable pixels : nat.
Variable network : image T -> list T.
Variable tf_gradient : nat -> image T -> image T.

Lemma tf_squeeze_batch (rows : list (image T)) :
  (2 <= length rows)%nat -> tf_squeeze rows = Batch rows.
Proof. destruct rows as [|g [|g' rows]]; simpl; [lia | lia | reflexivity]. Qed.

(** With at least one step the predictions have equal batch lengths and
    [predict] yields one row per path image, carrying its gradient map. *)
Lemma predict_rows (N : Z) (feats : Features T) :
  1 <= N ->
  well_shaped pixels network tf_gradient feats ->
  exists preds rows,
    gradients_model_fn pixels network tf_gradient N feats = Ok preds /\
    predict preds = Ok rows /\
    row_gradients <$> rows
    = weighted_gradient tf_gradient feats <$> path_features preds /\
    length rows = Z.to_nat (N + 1) /\
    Forall (fun r => length (row_gradients r) = pixels) rows.
Proof.
  intros HN Hshape.
  destruct (gradients_model_fn_runs N Hshape)
    as (preds & Hrun & Hpath & Hlogits & Htarget & Hgrads).
  assert (Hrows : length (path_features preds) = Z.to_nat (N + 1))
    by (rewrite Hpath, path_rows_length; lia).
  assert (Hmaps : row_gradients
                    <$> rows_of (path_features preds) (path_logits preds)
                          (target_logits preds)
                          (weighted_gradient tf_gradient feats <$> path_features preds)
                  = weighted_gradient tf_gradient feats <$> path_features preds).
  { apply rows_of_gradients; [by rewrite Hlogits, length_fmap | done
                             | by rewrite length_fmap]. }
  exists preds. eexists. split; [exact Hrun|].
  unfold predict. rewrite Hgrads, tf_squeeze_batch by (rewrite length_fmap; lia).
  rewrite Hlogits at 1. rewrite Htarget, !length_fmap, Nat.eqb_refl. simpl.
  split; [reflexivity|]. split; [exact Hmaps|]. split.
  - rewrite <- Hrows, <- (length_fmap row_gradients), Hmaps. by rewrite length_fmap.
  - apply (proj1 (Forall_fmap row_gradients (fun g => length g = pixels) _)).
    rewrite Hmaps. rewrite Forall_fmap, Forall_forall.
    intros row Hrow%list_elem_of_In. simpl. unfold weighted_gradient.
    destruct Hshape as (Hlen & Hgrad & _).
    rewrite length_zip_with, Hgrad, preprocess_images_length, Hlen.
    rewrite Hpath in Hrow.
    rewrite (@path_rows_shape _ _ pixels N _ _ (eq_trans (preprocess_images_length _) Hlen) Hrow).
    lia.
Qed.

(** The integration cell after the model function: it raises nothing and
    its IntegratedGradient is the elementwise sum of the gradient maps of
    all path images, added to the zero array in path order. *)
Lemma integration_cell_sums (dir : string) (N : Z) (feats : Features T)
    (fs : gmap string (pickled T)) :
  1 <= N ->
  well_shaped pixels network tf_gradient feats ->
  exists preds rows st,
    gradients_model_fn pixels network tf_gradient N feats = Ok preds /\
    predict preds = Ok rows /\
    integration_cell pixels dir N (Ok rows) fs = Ok st /\
    int_gradients st
    = foldl (zip_with dadd) (zeros pixels)
            (weighted_gradient tf_gradient feats <$> path_features preds) /\
    length (gradients_and_logits st) = Z.to_nat (N + 1).
Proof.
  intros HN Hshape.
  destruct (predict_rows HN Hshape) as (preds & rows & Hrun & Hpred & Hmaps & Hlen & Hall).
  assert (Hitems : length (py_range 0 (N + 1)) = length rows)
    by (rewrite py_range_length, Hlen; lia).
  destruct (@integration_loop_runs T DT pixels dir (py_range 0 (N + 1)) rows
              (zeros pixels) [] fs) as (st & Hloop & Hacc & _ & Hgl);
    [lia | apply zeros_length | exact Hall |].
  exists preds, rows. eexists. split; [exact Hrun|]. split; [exact Hpred|].
  unfold integration_cell. rewrite Hloop, bind_Ok.
  split; [reflexivity|]. simpl. split.
  - rewrite Hacc, Hitems, firstn_all. by rewrite Hmaps.
  - rewrite Hgl, Hitems, Hlen. simpl. lia.
Qed.

End Pipeline.

(** C5.  For every step count and for the fixed target class, the model
    function returns one gradient map per path image: the gradient of
    the class's logit at that path image, multiplied elementwise by the
    normalised original image, of the shape of an image.  The path is the
    one the loop builds, with N + 1 images when N >= 1; with a single
    path image [tf.squeeze] returns the one map bare.  Holds for every
    scalar type. *)
Theorem gradient_map_is_weighted_gradient {T : Type} `{DT : Dtype T}
    (pixels : nat) (network : image T -> list T)
    (tf_gradient : nat -> image T -> image T) (N : Z) (feats : Features T) :
  well_shaped pixels network tf_gradient feats ->
  exists preds path,
    build_path_features pixels N (preprocess_images (images feats)) = Ok path /\
    length path = S (Z.to_nat N) /\
    gradients_model_fn pixels network tf_gradient N feats = Ok preds /\
    path_features preds = path /\
    gradients preds
    = tf_squeeze
        ((fun path_image =>
            zip_with dmul (tf_gradient (most_likely_class feats) path_image)
                     (preprocess_images (images feats))) <$> path) /\
    (1 <= N ->
     gradients preds
     = Batch
         ((fun path_image =>
             zip_with dmul (tf_gradient (most_likely_class feats) path_image)
                      (preprocess_images (images feats))) <$> path)) /\
    forall path_image, path_image ∈ path ->
      length path_image = pixels /\
      length (zip_with dmul (tf_gradient (most_likely_class feats) path_image)
                       (preprocess_images (images feats))) = pixels.
Proof.
  intros Hshape.
  destruct (gradients_model_fn_runs N Hshape) as (preds & Hrun & Hpath & _ & _ & Hgrads).
  destruct Hshape as (Hlen & Hgrad & _).
  assert (Hfeat : length (preprocess_images (images feats)) = pixels)
    by by rewrite preprocess_images_length.
  exists preds, (path_features preds).
  split; [rewrite Hpath; by apply build_path_features_rows|].
  split; [rewrite Hpath; apply path_rows_length|].
  split; [exact Hrun|]. split; [reflexivity|].
  split; [exact Hgrads|]. split.
  - intros HN. rewrite Hgrads. apply tf_squeeze_batch.
    rewrite length_fmap, Hpath, path_rows_length. lia.
  - intros path_image Hin.
    assert (Hrow : length path_image = pixels).
    { apply (@path_rows_shape _ _ pixels N _ _ Hfeat). by rewrite <- Hpath. }
    split; [exact Hrow|].
    rewrite length_zip_with, Hgrad, Hrow, Hfeat. lia.
Qed.

(** ** Attribution at grey pixels *)






(** C7, as the spec words it, fails: at step count -1 the model function
    returns predictions for a one-pixel float32 image, and the integration
    cell fed by it ends normally, with its output written. *)
Lemma degenerate_step_count_runs :
  ~ fails_fast
      (gradients_model_fn (DT:=float32) 1 (toy_network (DT:=float32) 2)
         (toy_gradient (DT:=float32)) (-1)
         {| images := [ieee_lit 24 128 200 0]; most_likely_class := 1%nat |}) /\
  ~ fails_fast
      (integration_cell (DT:=float32) 1 "visualization" (-1)
         (preds <- gradients_model_fn (DT:=float32) 1 (toy_network (DT:=float32) 2)
                     (toy_gradient (DT:=float32)) (-1)
                     {| images := [ieee_lit 24 128 200 0]; most_likely_class := 1%nat |} ;;
          predict preds)
         ∅).
Proof. split; intros [e He]; vm_compute in He; discriminate He. Qed.

(** ** The path in float32

    The numbers of the path are those of the float32 graph.  What is
    said of them below is checked on each of the 256 values a uint8 pixel
    can have and on every step count up to the stated bound. *)

Lemma same_float_eq (a b : spec_float) : same_float a b = true -> a = b.
Proof.
  destruct a as [s|s| |s m e], b as [s'|s'| |s' m' e']; simpl; try discriminate; try done.
  - by intros ->%Bool.eqb_prop.
  - by intros ->%Bool.eqb_prop.
  - intros [[->%Bool.eqb_prop ->%Pos.eqb_eq]%andb_prop ->%Z.eqb_eq]%andb_prop.
    reflexivity.
Qed.

Lemma within_one_ulp_b_spec (x y : spec_float) :
  within_one_ulp_b x y = true -> within_one_ulp x y.
Proof.
  unfold within_one_ulp_b, within_one_ulp.
  intros [[H|H]%orb_prop|H]%orb_prop; apply same_float_eq in H; auto.
Qed.

Lemma forallb_range (f : Z -> bool) (lo n v : Z) :
  forallb f (seqZ lo n) = true -> lo <= v < lo + n -> f v = true.
Proof.
  intros Hall Hv. rewrite forallb_forall in Hall. apply Hall.
  apply list_elem_of_In, elem_of_seqZ. lia.
Qed.

Lemma forallb_fmap_range {A : Type} (f : A -> bool) (g : Z -> A) (lo n v : Z) :
  forallb f (g <$> seqZ lo n) = true -> lo <= v < lo + n -> f (g v) = true.
Proof.
  intros Hall Hv. rewrite forallb_forall in Hall. apply Hall.
  apply list_elem_of_In, list_elem_of_fmap. exists v. split; [reflexivity|].
  apply elem_of_seqZ. lia.
Qed.

Lemma strictly_ascending_lookup (l : list spec_float) (i j : nat) (x y : spec_float) :
  strictly_ascending l = true ->
  (i < j)%nat -> l !! i = Some x -> l !! j = Some y -> SFltb x y = true.
Proof.
  revert i j. induction l as [|z l IH]; intros i j Hasc Hij Hi Hj; [by rewrite lookup_nil in Hi|].
  simpl in Hasc. apply andb_prop in Hasc as [Hz Hasc].
  destruct i as [|i], j as [|j]; simpl in *; try lia.
  - injection Hi as <-. rewrite forallb_forall in Hz. apply Hz.
    apply list_elem_of_In. by apply list_elem_of_lookup_2 in Hj.
  - apply (IH i j); [done | lia | done | done].
Qed.

Lemma Forall2_fmap_same {A B C : Type} (R : B -> C -> Prop) (f : A -> B) (g : A -> C)
    (l : list A) :
  (forall x, x ∈ l -> R (f x) (g x)) -> Forall2 R (f <$> l) (g <$> l).
Proof.
  induction l as [|x l IH]; intros Hall; [constructor|].
  rewrite !fmap_cons. constructor.
  - apply Hall. left.
  - apply IH. intros y Hy. apply Hall. by right.
Qed.

Lemma preprocess_uint8 (raw : list Z) :
  preprocess_images (DT:=float32) (tf_to_float <$> raw) = normalized_uint8 <$> raw.
Proof. unfold preprocess_images. by rewrite <- list_fmap_compose. Qed.

Lemma fractional_float32 (N : Z) (features : image spec_float) (i : Z) :
  i <> 0 ->
  fractional (DT:=float32) N features i = (fun x => path_pixel N x i) <$> features.
Proof.
  intros Hi. unfold fractional. apply list_fmap_ext. intros _ x _.
  unfold path_pixel. replace (i =? 0) with false by (symmetry; apply Z.eqb_neq; lia).
  reflexivity.
Qed.


Lemma normalized_uint8_range_check :
  forallb (fun v => SFleb (ieee_lit 24 128 (-1) (-1)) (normalized_uint8 v)
                    && SFleb (normalized_uint8 v) (ieee_lit 24 128 1 (-1))
                    && is_finite (normalized_uint8 v))
          (seqZ 0 256) = true.
Proof. vm_compute. reflexivity. Qed.

Lemma normalized_uint8_ascending_check :
  strictly_ascending (normalized_uint8 <$> seqZ 0 256) = true.
Proof. vm_compute. reflexivity. Qed.



Lemma path_end_close_64 : path_end_check within_one_ulp_b 64 = true.
Proof. vm_cast_no_check (eq_refl true). Qed.


Lemma path_end_check_spec (same : spec_float -> spec_float -> bool) (bound N v : Z) :
  path_end_check same bound = true ->
  1 <= N <= bound -> 0 <= v <= 255 ->
  same (normalized_uint8 v) (path_pixel N (normalized_uint8 v) N) = true.
Proof.
  intros Hc HN Hv. unfold path_end_check in Hc. cbv zeta in Hc.
  apply forallb_range with (v := N) in Hc; [|lia]. cbv beta in Hc.
  apply forallb_fmap_range with (v := v) in Hc; [|lia].
  unfold path_pixel.
  replace (N =? 0) with false by (symmetry; apply Z.eqb_neq; lia).
  exact Hc.
Qed.


Lemma last_image_of_uint8 (same : spec_float -> spec_float -> bool)
    (R : spec_float -> spec_float -> Prop) (bound : Z) (pixels : nat) (N : Z)
    (raw : list Z) :
  (forall x y, same x y = true -> R x y) ->
  path_end_check same bound = true ->
  1 <= N <= bound -> Forall uint8 raw ->
  Forall2 R (preprocess_images (DT:=float32) (tf_to_float <$> raw))
            (fractional (DT:=float32) N
               (preprocess_images (DT:=float32) (tf_to_float <$> raw)) N).
Proof.
  intros Hsame Hc HN Hraw. rewrite Forall_forall in Hraw.
  rewrite fractional_float32, preprocess_uint8, <- list_fmap_compose by lia.
  apply Forall2_fmap_same. intros v Hv%list_elem_of_In%Hraw. unfold uint8 in Hv.
  apply Hsame. unfold compose.
  exact (@path_end_check_spec same bound N v Hc HN Hv).
Qed.








(** X13.  [preprocess_images] on the images the notebook feeds it, in float32
    as the graph runs: every uint8 pixel value is normalised to a finite
    number between -0.5 and 0.5, the value 0 to exactly -0.5 and the
    value 255 to exactly 0.5, and a larger pixel value always gets a
    strictly larger normalised value (no two pixel values are merged by
    rounding). *)
Theorem preprocess_images_on_uint8 (raw : list Z) :
  Forall uint8 raw ->
  preprocess_images (DT:=float32) (tf_to_float <$> raw) = normalized_uint8 <$> raw /\
  normalized_uint8 0 = ieee_lit 24 128 (-1) (-1) /\
  normalized_uint8 255 = ieee_lit 24 128 1 (-1) /\
  (forall v, v ∈ raw ->
     SFleb (ieee_lit 24 128 (-1) (-1)) (normalized_uint8 v) = true /\
     SFleb (normalized_uint8 v) (ieee_lit 24 128 1 (-1)) = true /\
     is_finite (normalized_uint8 v) = true) /\
  (forall v w, v ∈ raw -> w ∈ raw -> v < w ->
     SFltb (normalized_uint8 v) (normalized_uint8 w) = true).
Proof.
  intros Hraw. rewrite Forall_forall in Hraw.
  split; [apply preprocess_uint8|].
  split; [vm_compute; reflexivity|]. split; [vm_compute; reflexivity|]. split.
  - intros v Hv%list_elem_of_In%Hraw. unfold uint8 in Hv.
    pose proof (@forallb_range _ 0 256 v normalized_uint8_range_check ltac:(lia)) as Hc.
    cbv beta in Hc.
    apply andb_prop in Hc as [[H1 H2]%andb_prop H3].
    split; [exact H1|]. split; [exact H2 | exact H3].
  - intros v w Hv%list_elem_of_In%Hraw Hw%list_elem_of_In%Hraw Hvw. unfold uint8 in *.
    apply (@strictly_ascending_lookup (normalized_uint8 <$> seqZ 0 256)
             (Z.to_nat v) (Z.to_nat w) _ _ normalized_uint8_ascending_check); [lia | |].
    + rewrite list_lookup_fmap, lookup_seqZ_lt by lia.
      cbn [fmap option_fmap option_map]. do 2 f_equal. lia.
    + rewrite list_lookup_fmap, lookup_seqZ_lt by lia.
      cbn [fmap option_fmap option_map]. do 2 f_equal. lia.
Qed.

(** X14.  The last path image in float32, as the graph computes it: for every
    uint8 image and every step count from 1 to 64, each pixel of
    [features * N / N] is the normalised pixel itself or one of its two
    float32 neighbours. *)
Theorem last_path_image_within_one_ulp (N : Z) (raw : list Z) :
  1 <= N <= 64 ->
  Forall uint8 raw ->
  Forall2 within_one_ulp
    (preprocess_images (DT:=float32) (tf_to_float <$> raw))
    (fractional (DT:=float32) N (preprocess_images (DT:=float32) (tf_to_float <$> raw)) N).
Proof.
  intros HN Hraw.
  exact (@last_image_of_uint8 within_one_ulp_b within_one_ulp 64 (length raw) N raw
           within_one_ulp_b_spec path_end_close_64 HN Hraw).
Qed.

(** ** The sanity check *)

Lemma of_int_exact (z : Z) : of_int z = Qc_of_Z z.
Proof.
  unfold of_int. simpl. unfold Qc_lit. simpl.
  by rewrite Z.mul_1_r.
Qed.

(** In exact arithmetic the printed value is the normalised sum plus one,
    for every accumulated array and every step count. *)
Lemma printed_sum_is_normalized_sum_plus_one (N : Z) (int_grads : image Qc) :
  printed_sum_of_integrated_gradients N int_grads
  = (spec_normalized_sum N int_grads + of_int 1)%D /\
  printed_sum_of_integrated_gradients N int_grads <> spec_normalized_sum N int_grads.
Proof.
  split; [reflexivity|].
  unfold printed_sum_of_integrated_gradients, spec_normalized_sum.
  rewrite (of_int_exact 1), Z2Qc_inj_1. simpl. intros E.
  apply (f_equal (fun q => (q - np_sum int_grads / of_int N)%Qc)) in E.
  ring_simplify in E. by apply Q_apart_0_1.
Qed.

(** C1, evaluated on the code.  With RIEMANN_STEPS = 30 and an accumulated
    float64 array whose entries sum to 30, the notebook prints 2.0 as the
    'sum of integrated gradients', while the sum divided by the step count
    is 1.0: the expression [np.sum(int_gradients) / RIEMANN_STEPS + 1] adds
    one to the normalised sum. *)
Theorem sanity_check_prints_one_too_many :
  printed_sum_of_integrated_gradients (DT:=float64) 30
    [ieee_lit 53 1024 15 0; ieee_lit 53 1024 15 0; ieee_lit 53 1024 0 0]
  = ieee_lit 53 1024 2 0 /\
  spec_normalized_sum (DT:=float64) 30
    [ieee_lit 53 1024 15 0; ieee_lit 53 1024 15 0; ieee_lit 53 1024 0 0]
  = ieee_lit 53 1024 1 0.
Proof. split; vm_compute; reflexivity. Qed.

(** ** The min-max normalisation in IEEE arithmetic *)

Section MinMax.
Variables prec emax : Z.

Lemma SFsub_diag_quotient (c : spec_float) :
  SFdiv prec emax (SFsub prec emax c c) (SFsub prec emax c c) = S754_nan.
Proof.
  destruct c as [s|s| |s m e]; try reflexivity; try (destruct s; reflexivity).
  cbn [SFsub]. rewrite Z.sub_diag. reflexivity.
Qed.

Lemma np_minimum_same (c : spec_float) : np_minimum (DT:=ieee_dtype prec emax) c c = c.
Proof. unfold np_minimum. by repeat case_match. Qed.

Lemma np_maximum_same (c : spec_float) : np_maximum (DT:=ieee_dtype prec emax) c c = c.
Proof. unfold np_maximum. by repeat case_match. Qed.

Lemma fold_constant (op : spec_float -> spec_float -> spec_float)
    (c : spec_float) (n : nat) :
  op c c = c -> fold_left op (replicate n c) c = c.
Proof. intros Hop. induction n as [|n IH]; simpl; [reflexivity|]. by rewrite Hop. Qed.

Lemma constant_is_replicate (m : list spec_float) (c : spec_float) :
  (forall x, x ∈ m -> x = c) -> m = replicate (length m) c.
Proof.
  induction m as [|x m IH]; intros Hall; simpl; [reflexivity|].
  rewrite (Hall x) by apply list_elem_of_here. f_equal.
  apply IH. intros y Hy. apply Hall. by apply list_elem_of_further.
Qed.

End MinMax.

(** C6, as the spec words it, fails: the normalisation of the constant
    float32 map [1.0, 1.0, 1.0] raises nothing and returns NaN. *)
Lemma constant_map_is_not_guarded :
  ~ guarded_or_fails (DT:=float32)
      (minmax_normalized (DT:=float32)
         [ieee_lit 24 128 1 0; ieee_lit 24 128 1 0; ieee_lit 24 128 1 0]).
Proof.
  intros [[e He]|(v & Hv & Hnan)].
  - vm_compute in He. discriminate He.
  - vm_compute in Hv. injection Hv as <-.
    specialize (Hnan S754_nan (list_elem_of_here _ _)). discriminate Hnan.
Qed.

(** C6, as the code has it.  For a constant gradient map (a non-empty
    array all of whose entries are equal, in float32 or float64) the
    min-max normalisation has no guard: it divides zero by zero (or NaN by
    NaN), raises nothing, and returns an array of the same size whose
    every entry is NaN. *)
Theorem constant_map_normalizes_to_nan (prec emax : Z)
    (gradient_map : image spec_float) (c : spec_float) :
  gradient_map <> [] ->
  (forall x, x ∈ gradient_map -> x = c) ->
  minmax_normalized (DT:=ieee_dtype prec emax) gradient_map
  = Ok (replicate (length gradient_map) S754_nan).
Proof.
  intros Hne Hall.
  rewrite (constant_is_replicate Hall) at 1.
  destruct gradient_map as [|x m]; [done|]. clear Hne Hall.
  unfold minmax_normalized, ndarray_min, ndarray_max, ndarray_reduce.
  cbn [length replicate]. rewrite !bind_Ok.
  rewrite (fold_constant _ _ (np_minimum_same prec emax c)).
  rewrite (fold_constant _ _ (np_maximum_same prec emax c)).
  f_equal. change (c :: replicate (length m) c) with (replicate (S (length m)) c).
  rewrite fmap_replicate.
  change ((c - c) / (c - c))%D
    with (SFdiv prec emax (SFsub prec emax c c) (SFsub prec emax c c)).
  by rewrite SFsub_diag_quotient.
Qed.

(** ** The label lookup *)

Lemma py_getitem_in_range {A : Type} (xs : list A) (k : Z) (a : A) :
  0 <= k -> xs !! Z.to_nat k = Some a -> py_getitem xs k = Ok a.
Proof.
  intros Hk Ha. unfold py_getitem.
  apply lookup_lt_Some in Ha as Hlt.
  replace (k <? 0) with false by (symmetry; apply Z.ltb_ge; lia).
  replace (0 <=? k) with true by (symmetry; apply Z.leb_le; lia).
  replace (k <? Z.of_nat (length xs)) with true by (symmetry; apply Z.ltb_lt; lia).
  simpl. by rewrite Ha.
Qed.

(** C10, as the code has it.  The class indices are offset by one from
    the label file: for returned class indices that are ImageNet classes
    (1 up to the number of labels; 0 is the miscellaneous class), the
    lookup raises nothing and the name displayed for class index c is
    the label at position c - 1 of the label file. *)
Theorem class_name_is_label_at_index_minus_one (labels : list string)
    (classval : list Z) :
  Forall (fun c => 1 <= c <= Z.of_nat (length labels)) classval ->
  exists names,
    class_names labels classval = Ok names /\
    length names = length classval /\
    forall (j : nat) (c : Z),
      classval !! j = Some c ->
      exists name,
        names !! j = Some name /\ labels !! Z.to_nat (c - 1) = Some name.
Proof.
  intros Hrange. rewrite Forall_forall in Hrange.
  exists ((fun c => default ""%string (labels !! Z.to_nat (c - 1))) <$> classval).
  split; [|split].
  - unfold class_names. apply comprehension_total.
    intros c Hc%list_elem_of_In%Hrange.
    destruct (lookup_lt_is_Some_2 labels (Z.to_nat (c - 1))) as [name Hname]; [lia|].
    rewrite Hname. simpl. apply py_getitem_in_range; [lia | exact Hname].
  - apply length_fmap.
  - intros j c Hj.
    assert (Hc : 1 <= c <= Z.of_nat (length labels))
      by (apply Hrange, list_elem_of_In; by apply list_elem_of_lookup_2 in Hj).
    destruct (lookup_lt_is_Some_2 labels (Z.to_nat (c - 1))) as [name Hname]; [lia|].
    exists name. split; [|exact Hname].
    rewrite list_lookup_fmap, Hj. simpl. by rewrite Hname.
Qed.

(** The miscellaneous class 0 is looked up at position -1, which Python
    reads from the end of the list: the name displayed is the last label. *)
Remark class_zero_shows_last_label (labels : list string) (name : string) :
  class_names (labels ++ [name]) [0] = Ok [name].
Proof.
  unfold class_names, comprehension, py_getitem.
  rewrite length_app. cbn [length].
  replace (0 - 1 <? 0) with true by reflexivity.
  replace (Z.of_nat (length labels + 1) + (0 - 1)) with (Z.of_nat (length labels)) by lia.
  replace (0 <=? Z.of_nat (length labels)) with true by (symmetry; apply Z.leb_le; lia).
  replace (Z.of_nat (length labels) <? Z.of_nat (length labels + 1)) with true
    by (symmetry; apply Z.ltb_lt; lia).
  rewrite Nat2Z.id. cbn [andb].
  by rewrite list_lookup_middle.
Qed.

(** C10, as the spec words it, fails for the miscellaneous class: for the
    class index 0 the label file has no position 0 - 1, and the name
    displayed is the last label of the file. *)
Lemma class_zero_has_no_label_at_minus_one :
  exists name,
    class_names example_labels [0] = Ok [name] /\
    label_at example_labels (0 - 1) <> Some name /\
    list.last example_labels = Some name.
Proof.
  exists "great white shark"%string.
  split; [reflexivity|]. split; [discriminate | reflexivity].
Qed.

(** * Worked examples

    Each statement with hypotheses is applied to a concrete input that
    satisfies them. *)

(** The notebook on the small model, in float32: a white two-pixel image,
    two steps, target class 1.  Three gradient maps [1, 1] are summed to
    [3, 3]; the target logit goes from 0 to 2; the value printed as the
    sum of integrated gradients is 6 / 2 + 1 = 4. *)
Example notebook_run_float32 :
  result_map
    (fun st => (int_gradients st,
                printed_total_logit_diff (DT:=float32) 2 (gradients_and_logits st),
                printed_sum_of_integrated_gradients (DT:=float32) 2 (int_gradients st)))
    (integration_cell (DT:=float32) 2 "visualization" 2
       (preds <- gradients_model_fn (DT:=float32) 2 (toy_network (DT:=float32) 3)
                   (toy_gradient (DT:=float32)) 2
                   {| images := [ieee_lit 24 128 255 0; ieee_lit 24 128 255 0];
                      most_likely_class := 1%nat |} ;;
        predict preds)
       ∅)
  = Ok ([ieee_lit 24 128 3 0; ieee_lit 24 128 3 0],
        Ok (ieee_lit 24 128 2 0),
        ieee_lit 24 128 4 0).
Proof. vm_compute. reflexivity. Qed.

(** The files written by that run. *)
Example notebook_run_files :
  result_map (fun st => dom (files st))
    (integration_cell (DT:=float32) 2 "visualization" 1
       (Ok [example_row (ieee_lit 24 128 1 0) float32_image;
            example_row (ieee_lit 24 128 2 0) float32_image]) ∅)
  = Ok ({[ "visualization/path_gradient_0.pkl"; "visualization/path_gradient_1.pkl";
           "visualization/int_gradients.pkl"; "visualization/gradients_and_logits.pkl" ]}
        : gset string).
Proof. vm_compute. reflexivity. Qed.

(** A generator that runs dry raises StopIteration in the loop. *)
Example exhausted_generator_raises :
  result_map int_gradients
    (integration_cell (DT:=float32) 2 "visualization" 2
       (Ok [example_row (ieee_lit 24 128 1 0) float32_image]) ∅)
  = Raise StopIteration.
Proof. vm_compute. reflexivity. Qed.

(** At step count 0 the model function returns, but its squeezed gradient
    tensor has lost the batch dimension: [Estimator.predict] refuses the
    predictions and the first [next] of the loop raises. *)
Example step_count_zero_stops_at_predict :
  result_map int_gradients
    (integration_cell (DT:=float32) 2 "visualization" 0
       (preds <- gradients_model_fn (DT:=float32) 2 (toy_network (DT:=float32) 3)
                   (toy_gradient (DT:=float32)) 0
                   {| images := float32_image; most_likely_class := 1%nat |} ;;
        predict preds)
       ∅)
  = Raise ValueError.
Proof. vm_compute. reflexivity. Qed.

(** An image that has not the model's shape is refused by [tf.concat]. *)
Example wrong_shape_is_refused :
  build_path_features (DT:=float32) 3 2 float32_image = Raise ValueError.
Proof. vm_compute. reflexivity. Qed.

(** The spec's scenario on a uint8 image, with two steps: the path is
    zero, half the normalised image, the normalised image. *)
Example path_of_two_steps :
  build_path_features (DT:=float32) 2 2 (preprocess_images (DT:=float32) float32_image)
  = Ok [[ieee_lit 24 128 0 0; ieee_lit 24 128 0 0];
        [ieee_lit 24 128 1 (-2); ieee_lit 24 128 (-1) (-2)];
        [ieee_lit 24 128 1 (-1); ieee_lit 24 128 (-1) (-1)]].
Proof. vm_compute. reflexivity. Qed.

(** The executed graph and the graph as it is written give different
    float32 numbers: at a pixel of raw value 4 and with the notebook's 30
    steps, the last image of the path is the normalised pixel exactly,
    where the written expression, [features * 30 / 30] with a true
    division, is one unit in the last place away from it. *)
Remark executed_graph_is_not_the_written_one :
  path_pixel 30 (normalized_uint8 4) 30 = normalized_uint8 4 /\
  SFdiv 24 128 (SFmul 24 128 (normalized_uint8 4) (ieee_lit 24 128 30 0))
        (ieee_lit 24 128 30 0)
  <> normalized_uint8 4.
Proof.
  split; [vm_compute; reflexivity|].
  intros E. vm_compute in E. discriminate E.
Qed.

(** [os.path.join] puts no second slash after a directory that ends in
    one, and none before the name when the directory is empty. *)
Example path_gradient_file_names :
  path_gradient_file "visualization/cat" 7 = "visualization/cat/path_gradient_7.pkl"%string /\
  path_gradient_file "visualization/" 7 = "visualization/path_gradient_7.pkl"%string /\
  path_gradient_file "" 7 = "path_gradient_7.pkl"%string.
Proof. repeat split; vm_compute; reflexivity. Qed.

(** A normalised map that is not constant, and the labels of three classes. *)
Example minmax_of_a_ramp :
  minmax_normalized (DT:=float32)
    [ieee_lit 24 128 1 0; ieee_lit 24 128 3 0; ieee_lit 24 128 2 0]
  = Ok [ieee_lit 24 128 0 0; ieee_lit 24 128 1 0; ieee_lit 24 128 1 (-1)].
Proof. vm_compute. reflexivity. Qed.

Example minmax_of_nothing : minmax_normalized (DT:=float32) [] = Raise ValueError.
Proof. reflexivity. Qed.

Example names_of_three_classes :
  class_names example_labels [2; 1; 3] = Ok ["goldfish"; "tench"; "great white shark"].
Proof. reflexivity. Qed.

Example class_beyond_the_labels : class_names example_labels [4] = Raise IndexError.
Proof. reflexivity. Qed.

Lemma toy_model_well_shaped {T : Type} `{DT : Dtype T} (pixels classes : nat)
    (raw : image T) (c : nat) :
  length raw = pixels -> (c < classes)%nat ->
  well_shaped pixels (toy_network classes) toy_gradient
    {| images := raw; most_likely_class := c |}.
Proof.
  intros Hlen Hc. split; [exact Hlen|]. split.
  - intros c' x. apply length_fmap.
  - intros x. simpl. unfold toy_network. by rewrite length_fmap, length_seq.
Qed.

Lemma example_pixels_are_uint8 : Forall uint8 example_pixels.
Proof. repeat constructor; unfold uint8; lia. Qed.




Lemma gradient_map_is_weighted_gradient_witness :
  well_shaped 2 (toy_network (DT:=float32) 3) (toy_gradient (DT:=float32))
    {| images := float32_image; most_likely_class := 1%nat |} /\
  exists preds path,
    build_path_features (DT:=float32) 2 2 (preprocess_images (DT:=float32) float32_image)
    = Ok path /\
    length path = S (Z.to_nat 2) /\
    gradients_model_fn (DT:=float32) 2 (toy_network (DT:=float32) 3)
      (toy_gradient (DT:=float32)) 2
      {| images := float32_image; most_likely_class := 1%nat |} = Ok preds /\
    path_features preds = path /\
    gradients preds
    = tf_squeeze
        ((fun path_image =>
            zip_with (dmul (Dtype:=float32)) (toy_gradient (DT:=float32) 1 path_image)
                     (preprocess_images (DT:=float32) float32_image)) <$> path) /\
    (1 <= 2 ->
     gradients preds
     = Batch
         ((fun path_image =>
             zip_with (dmul (Dtype:=float32)) (toy_gradient (DT:=float32) 1 path_image)
                      (preprocess_images (DT:=float32) float32_image)) <$> path)) /\
    forall path_image, path_image ∈ path ->
      length path_image = 2%nat /\
      length (zip_with (dmul (Dtype:=float32)) (toy_gradient (DT:=float32) 1 path_image)
                       (preprocess_images (DT:=float32) float32_image)) = 2%nat.
Proof.
  assert (Hshape : well_shaped 2 (toy_network (DT:=float32) 3) (toy_gradient (DT:=float32))
                     {| images := float32_image; most_likely_class := 1%nat |})
    by (apply toy_model_well_shaped; [reflexivity | lia]).
  split; [exact Hshape|].
  exact (@gradient_map_is_weighted_gradient spec_float float32 2 _ _ 2 _ Hshape).
Defined.

Lemma degenerate_step_count_is_not_rejected_witness :
  -1 < 1 /\
  well_shaped 2 (toy_network (DT:=float32) 3) (toy_gradient (DT:=float32))
    {| images := float32_image; most_likely_class := 1%nat |} /\
  -1 < 0 /\
  build_path_features (DT:=float32) 2 (-1) (preprocess_images (DT:=float32) float32_image)
  = Ok [zeros (DT:=float32) 2] /\
  (exists preds,
     gradients_model_fn (DT:=float32) 2 (toy_network (DT:=float32) 3)
       (toy_gradient (DT:=float32)) (-1)
       {| images := float32_image; most_likely_class := 1%nat |} = Ok preds /\
     path_features preds = [zeros (DT:=float32) 2] /\
     gradients preds
     = Collapsed (zip_with (dmul (Dtype:=float32))
                    (toy_gradient (DT:=float32) 1 (zeros (DT:=float32) 2))
                    (preprocess_images (DT:=float32) float32_image))) /\
  (exists st,
     integration_cell (DT:=float32) 2 "visualization" (-1) (Raise ValueError) ∅ = Ok st /\
     gradient_predictions st = Raise ValueError /\
     int_gradients st = zeros (DT:=float32) 2 /\
     gradients_and_logits st = []).
Proof.
  assert (Hshape : well_shaped 2 (toy_network (DT:=float32) 3) (toy_gradient (DT:=float32))
                     {| images := float32_image; most_likely_class := 1%nat |})
    by (apply toy_model_well_shaped; [reflexivity | lia]).
  assert (HN : -1 < 1) by lia.
  assert (HN0 : -1 < 0) by lia.
  split; [exact HN|]. split; [exact Hshape|]. split; [exact HN0|].
  destruct (@degenerate_step_count_is_not_rejected spec_float float32 2
              (toy_network (DT:=float32) 3) (toy_gradient (DT:=float32)) (-1)
              {| images := float32_image; most_likely_class := 1%nat |} HN)
    as (Hpath & Hpreds & Hcell).
  split; [exact Hpath|]. split; [exact (Hpreds Hshape)|].
  exact (Hcell HN0 "visualization" (Raise ValueError) ∅).
Defined.

Lemma integrator_is_deterministic_witness :
  result_map (fmap row_gradients)
    (Ok [example_row (ieee_lit 24 128 1 0) float32_image;
         example_row (ieee_lit 24 128 2 0) float32_image])
  = result_map (fmap row_gradients)
      (Ok [example_row (ieee_lit 24 128 7 0) float32_image;
           example_row (ieee_lit 24 128 9 0) float32_image]) /\
  result_map int_gradients
    (integration_cell (DT:=float32) 2 "visualization/a" 1
       (Ok [example_row (ieee_lit 24 128 1 0) float32_image;
            example_row (ieee_lit 24 128 2 0) float32_image]) ∅)
  = result_map int_gradients
      (integration_cell (DT:=float32) 2 "visualization/b" 1
         (Ok [example_row (ieee_lit 24 128 7 0) float32_image;
              example_row (ieee_lit 24 128 9 0) float32_image]) ∅).
Proof.
  split; [reflexivity|].
  apply (@integrator_is_deterministic spec_float float32). reflexivity.
Defined.



Lemma constant_map_normalizes_to_nan_witness :
  [ieee_lit 24 128 1 0; ieee_lit 24 128 1 0] <> [] /\
  (forall x, x ∈ [ieee_lit 24 128 1 0; ieee_lit 24 128 1 0] -> x = ieee_lit 24 128 1 0) /\
  minmax_normalized (DT:=float32) [ieee_lit 24 128 1 0; ieee_lit 24 128 1 0]
  = Ok [S754_nan; S754_nan].
Proof.
  assert (Hne : [ieee_lit 24 128 1 0; ieee_lit 24 128 1 0] <> []) by discriminate.
  assert (Hall : forall x, x ∈ [ieee_lit 24 128 1 0; ieee_lit 24 128 1 0] ->
                           x = ieee_lit 24 128 1 0).
  { intros x Hx. apply elem_of_cons in Hx as [->|Hx]; [reflexivity|].
    apply elem_of_cons in Hx as [->|Hx]; [reflexivity|].
    by apply elem_of_nil in Hx. }
  split; [exact Hne|]. split; [exact Hall|].
  exact (@constant_map_normalizes_to_nan 24 128 _ _ Hne Hall).
Defined.

Lemma class_name_is_label_at_index_minus_one_witness :
  Forall (fun c => 1 <= c <= Z.of_nat (length example_labels)) [2; 1; 3] /\
  exists names,
    class_names example_labels [2; 1; 3] = Ok names /\
    length names = length [2; 1; 3] /\
    forall (j : nat) (c : Z),
      [2; 1; 3] !! j = Some c ->
      exists name,
        names !! j = Some name /\ example_labels !! Z.to_nat (c - 1) = Some name.
Proof.
  assert (Hrange : Forall (fun c => 1 <= c <= Z.of_nat (length example_labels)) [2; 1; 3])
    by (repeat constructor; simpl; lia).
  split; [exact Hrange|].
  exact (@class_name_is_label_at_index_minus_one example_labels [2; 1; 3] Hrange).
Defined.

(** * Further properties of the notebook *)

(** ** gradients_model_fn: what it refuses and what it reports *)

Lemma py_range_cons (lo hi : Z) : lo < hi -> py_range lo hi = lo :: py_range (lo + 1) hi.
Proof.
  intros Hlt. unfold py_range. rewrite seqZ_cons by lia. f_equal. f_equal; lia.
Qed.

(** X1.  With at least one step, an image whose size is not the model's input
    size is refused with a ValueError: [tf.concat] rejects the first
    image of the path that is appended to the [tf.zeros] baseline. *)
Theorem wrong_image_size_is_refused {T : Type} `{DT : Dtype T}
    (pixels : nat) (network : image T -> list T)
    (tf_gradient : nat -> image T -> image T) (N : Z) (feats : Features T) :
  1 <= N ->
  length (images feats) <> pixels ->
  gradients_model_fn pixels network tf_gradient N feats = Raise ValueError.
Proof.
  intros HN Hne. unfold gradients_model_fn.
  assert (Hneb : (pixels =? length (preprocess_images (images feats)))%nat = false).
  { apply Nat.eqb_neq. rewrite preprocess_images_length. congruence. }
  unfold build_path_features. rewrite py_range_cons by lia. simpl.
  by rewrite fractional_length, zeros_length, Hneb.
Qed.

(** X2.  A target class that the network does not have is refused with an
    InvalidArgumentError when the logit column is taken. *)
Theorem unknown_class_is_refused {T : Type} `{DT : Dtype T}
    (pixels : nat) (network : image T -> list T)
    (tf_gradient : nat -> image T -> image T) (N : Z) (feats : Features T) :
  length (images feats) = pixels ->
  (forall c x, length (tf_gradient c x) = length x) ->
  (length (network (zeros pixels)) <= most_likely_class feats)%nat ->
  gradients_model_fn pixels network tf_gradient N feats = Raise InvalidArgumentError.
Proof.
  intros Hlen Hgrad Hclass.
  assert (Hfeat : length (preprocess_images (images feats)) = pixels)
    by by rewrite preprocess_images_length.
  unfold gradients_model_fn.
  rewrite build_path_features_rows, bind_Ok by done.
  rewrite (comprehension_total _ (weighted_gradient tf_gradient feats)); last first.
  { intros row Hrow. unfold tf_multiply, elementwise.
    rewrite Hgrad, (@path_rows_shape _ _ pixels N _ _ Hfeat Hrow), Hfeat, Nat.eqb_refl.
    reflexivity. }
  rewrite bind_Ok. simpl. unfold tf_index at 1.
  by rewrite (lookup_ge_None_2 (network (zeros pixels)) _ Hclass).
Qed.

Lemma comprehension_lookup {X Y : Type} (f : X -> result Y) (xs : list X) (ys : list Y) :
  comprehension f xs = Ok ys ->
  length ys = length xs /\
  forall i x, xs !! i = Some x -> exists y, ys !! i = Some y /\ f x = Ok y.
Proof.
  revert ys. induction xs as [|x xs IH]; intros ys; simpl.
  - intros [= <-]. split; [reflexivity|]. intros i x Hi. by rewrite lookup_nil in Hi.
  - destruct (f x) as [y|e] eqn:Hfx; simpl; [|discriminate].
    destruct (comprehension f xs) as [ys'|e] eqn:Hrest; simpl; [|discriminate].
    intros [= <-]. destruct (IH ys' eq_refl) as [Hlen Hall].
    split; [simpl; by rewrite Hlen|].
    intros [|i] x' Hi; simpl in *.
    + injection Hi as <-. by exists y.
    + by apply Hall.
Qed.

Lemma model_fn_rows {T : Type} `{DT : Dtype T}
    (pixels : nat) (network : image T -> list T)
    (tf_gradient : nat -> image T -> image T) (N : Z) (feats : Features T)
    (preds : Predictions T) :
  gradients_model_fn pixels network tf_gradient N feats = Ok preds ->
  length (path_logits preds) = length (path_features preds) /\
  length (target_logits preds) = length (path_features preds) /\
  forall (i : nat) (path_image : image T),
    path_features preds !! i = Some path_image ->
    path_logits preds !! i = Some (network path_image) /\
    exists t,
      target_logits preds !! i = Some t /\
      network path_image !! most_likely_class feats = Some t.
Proof.
  unfold gradients_model_fn.
  destruct (build_path_features _ _ _) as [path|e]; simpl; [|discriminate].
  destruct (comprehension _ path) as [weighted|e] eqn:Hw; simpl; [|discriminate].
  destruct (comprehension _ (network <$> path)) as [target|e] eqn:Ht; simpl; [|discriminate].
  intros [= <-]. simpl.
  apply comprehension_lookup in Hw as [Hwlen _].
  apply comprehension_lookup in Ht as [Htlen Htall].
  rewrite length_fmap in Htlen.
  split; [apply length_fmap|]. split; [exact Htlen|].
  intros i path_image Hi.
  split; [by rewrite list_lookup_fmap, Hi|].
  destruct (Htall i (network path_image)) as (t & Hti & Hidx);
    [by rewrite list_lookup_fmap, Hi|].
  exists t. split; [exact Hti|].
  unfold tf_index in Hidx.
  destruct (network path_image !! most_likely_class feats); [congruence | discriminate].
Qed.

(** ** The integration cell: what it reads, keeps and writes *)

Lemma string_length_app (a b : string) :
  String.length (a +:+ b) = (String.length a + String.length b)%nat.
Proof.
  induction a as [|c a IH]; [reflexivity|].
  change (S (String.length (a +:+ b)) = S (String.length a + String.length b)).
  by rewrite IH.
Qed.

Lemma string_app_inj_r (s1 s2 t : string) : s1 +:+ t = s2 +:+ t -> s1 = s2.
Proof.
  revert s2. induction s1 as [|c s1 IH]; intros [|c' s2] Hs.
  - reflexivity.
  - apply (f_equal String.length) in Hs. rewrite !string_length_app in Hs.
    change (String.length t = S (String.length s2 + String.length t)) in Hs. lia.
  - apply (f_equal String.length) in Hs. rewrite !string_length_app in Hs.
    change (S (String.length s1 + String.length t) = String.length t) in Hs. lia.
  - change (String c (s1 +:+ t) = String c' (s2 +:+ t)) in Hs.
    injection Hs as -> Hs. f_equal. by apply IH.
Qed.

Section IntegrationCell.
Context {T : Type} `{DT : Dtype T}.

Lemma integration_step_inv (dir : string) (i : Z) (st st' : cell_state T) :
  integration_step dir i st = Ok st' ->
  exists r rest,
    gradient_predictions st = Ok (r :: rest) /\
    length (row_gradients r) = length (int_gradients st) /\
    gradient_predictions st' = Ok rest /\
    int_gradients st' = zip_with dadd (int_gradients st) (row_gradients r) /\
    gradients_and_logits st' = gradients_and_logits st ++ [gradient_and_logit r] /\
    files st' = <[path_gradient_file dir i := PArray (row_gradients r)]> (files st).
Proof.
  unfold integration_step, next.
  destruct (gradient_predictions st) as [[|r rest]|e]; simpl; try discriminate.
  unfold np_add, elementwise.
  destruct (length (int_gradients st) =? length (row_gradients r))%nat eqn:Hlen;
    simpl; [|discriminate].
  intros [= <-]. apply Nat.eqb_eq in Hlen.
  exists r, rest. simpl. by repeat split.
Qed.

(** What a finished run of the loop has done, read off its final state. *)
Lemma integration_loop_inv (dir : string) (items : list Z) (st st' : cell_state T)
    (rows : list (gradient_dict T)) :
  gradient_predictions st = Ok rows ->
  for_each (integration_step dir) items st = Ok st' ->
  (length items <= length rows)%nat /\
  gradient_predictions st' = Ok (drop (length items) rows) /\
  Forall (fun r => length (row_gradients r) = length (int_gradients st))
         (take (length items) rows) /\
  int_gradients st'
  = foldl (zip_with dadd) (int_gradients st) (row_gradients <$> take (length items) rows) /\
  gradients_and_logits st'
  = gradients_and_logits st ++ (gradient_and_logit <$> take (length items) rows) /\
  (forall path, (forall i, i ∈ items -> path <> path_gradient_file dir i) ->
     files st' !! path = files st !! path) /\
  (NoDup items ->
   forall k i r, items !! k = Some i -> rows !! k = Some r ->
     files st' !! path_gradient_file dir i = Some (PArray (row_gradients r))).
Proof.
  revert st rows.
  induction items as [|i items IH]; intros st rows Hgen; simpl.
  - intros [= <-]. rewrite drop_0, take_0, app_nil_r. simpl.
    repeat split; [lia | done | constructor | ].
    intros _ k i r Hk. by rewrite lookup_nil in Hk.
  - destruct (integration_step dir i st) as [st1|e] eqn:Hstep; simpl; [|discriminate].
    intros Hloop.
    apply integration_step_inv in Hstep
      as (r & rest & Hgen' & Hshape & Hgen1 & Hacc1 & Hgl1 & Hfiles1).
    rewrite Hgen in Hgen'. injection Hgen' as ->.
    destruct (IH st1 rest Hgen1 Hloop) as (Hn & Hgen2 & Hall & Hacc & Hgl & Hkeep & Hget).
    assert (Hlen1 : length (int_gradients st1) = length (int_gradients st))
      by (rewrite Hacc1, length_zip_with; lia).
    split; [simpl; lia|]. split; [exact Hgen2|].
    split; [constructor; [exact Hshape | by rewrite <- Hlen1]|].
    split; [by rewrite Hacc, Hacc1|].
    split; [rewrite Hgl, Hgl1, <- app_assoc; reflexivity|].
    split.
    + intros path Hpath. rewrite Hkeep, Hfiles1.
      * apply lookup_insert_ne. intros E. apply (Hpath i); [left | done].
      * intros j Hj. apply Hpath. by right.
    + intros Hnodup k j r' Hk Hr.
      apply list.NoDup_cons in Hnodup as [Hnotin Hnodup].
      destruct k as [|k]; simpl in *.
      * injection Hk as <-. injection Hr as <-.
        rewrite Hkeep, Hfiles1; [apply lookup_insert_eq|].
        intros j Hj E. apply Hnotin.
        unfold path_gradient_file, os_path_join in E.
        repeat apply String.app_inj in E.
        apply string_app_inj_r in E. apply (inj pretty) in E. by subst.
      * by apply (Hget Hnodup k).
Qed.

End IntegrationCell.

Section IntegrationCellOutcome.
Context {T : Type} `{DT : Dtype T}.
Variable pixels : nat.

Lemma pickle_names_differ (dir : string) :
  os_path_join dir "gradients_and_logits.pkl" <> os_path_join dir "int_gradients.pkl".
Proof.
  unfold os_path_join. intros E. repeat apply String.app_inj in E. discriminate E.
Qed.

Lemma pickle_names_not_a_path_gradient (dir : string) (i : Z) :
  os_path_join dir "gradients_and_logits.pkl" <> path_gradient_file dir i /\
  os_path_join dir "int_gradients.pkl" <> path_gradient_file dir i.
Proof.
  unfold path_gradient_file, os_path_join.
  split; intros E; repeat apply String.app_inj in E; discriminate E.
Qed.

(** The cell on a generator that still has a row for every pass of the
    loop, all gradient maps being of the shape of the accumulator. *)
Lemma integration_cell_spec (dir : string) (N : Z) (rows : list (gradient_dict T))
    (fs : gmap string (pickled T)) :
  (Z.to_nat (N + 1) <= length rows)%nat ->
  Forall (fun r => length (row_gradients r) = pixels) rows ->
  exists st,
    integration_cell pixels dir N (Ok rows) fs = Ok st /\
    gradient_predictions st = Ok (drop (Z.to_nat (N + 1)) rows) /\
    int_gradients st
    = foldl (zip_with dadd) (zeros pixels) (row_gradients <$> take (Z.to_nat (N + 1)) rows) /\
    gradients_and_logits st = gradient_and_logit <$> take (Z.to_nat (N + 1)) rows /\
    files st !! os_path_join dir "gradients_and_logits.pkl"
    = Some (PPairs (gradients_and_logits st)) /\
    files st !! os_path_join dir "int_gradients.pkl" = Some (PArray (int_gradients st)) /\
    (forall path,
       (forall i, 0 <= i <= N -> path <> path_gradient_file dir i) ->
       path <> os_path_join dir "int_gradients.pkl" ->
       path <> os_path_join dir "gradients_and_logits.pkl" ->
       files st !! path = fs !! path) /\
    (forall i, 0 <= i <= N ->
       exists r, rows !! Z.to_nat i = Some r /\
         files st !! path_gradient_file dir i = Some (PArray (row_gradients r))).
Proof.
  intros Hn Hshape.
  assert (Hitems : length (py_range 0 (N + 1)) = Z.to_nat (N + 1))
    by (rewrite py_range_length; f_equal; lia).
  destruct (@integration_loop_runs T DT pixels dir (py_range 0 (N + 1)) rows
              (zeros pixels) [] fs) as (st0 & Hloop & _);
    [lia | apply zeros_length | exact Hshape |].
  pose proof Hloop as Hinv.
  apply integration_loop_inv with (rows := rows) in Hinv
    as (_ & Hgen & _ & Hacc & Hgl & Hkeep & Hget); [|reflexivity].
  simpl in Hacc, Hgl, Hkeep. rewrite Hitems in Hgen, Hacc, Hgl.
  eexists. unfold integration_cell. rewrite Hloop, bind_Ok.
  split; [reflexivity|]. simpl.
  split; [exact Hgen|]. split; [exact Hacc|]. split; [exact Hgl|].
  split; [apply lookup_insert_eq|].
  split.
  { rewrite lookup_insert_ne by apply pickle_names_differ. apply lookup_insert_eq. }
  split.
  - intros path Hpath Hint Hgl'.
    rewrite !lookup_insert_ne by done. apply Hkeep.
    intros i Hi. apply Hpath. unfold py_range in Hi.
    apply elem_of_seqZ in Hi. lia.
  - intros i Hi.
    destruct (lookup_lt_is_Some_2 rows (Z.to_nat i)) as [r Hr]; [lia|].
    exists r. split; [exact Hr|].
    rewrite !lookup_insert_ne by apply pickle_names_not_a_path_gradient.
    apply (Hget (NoDup_seqZ _ _) (Z.to_nat i)); [|exact Hr].
    rewrite py_range_lookup by lia. f_equal. lia.
Qed.

End IntegrationCellOutcome.

(** X4.  What the plotting cells load is what the integration cell stored: after
    a run over enough well-shaped rows, the file [path_gradient_<i>.pkl]
    holds the gradient map of row [i] for every [i] from 0 to
    RIEMANN_STEPS (a later pass never overwrites an earlier file, nor do
    the two final pickles), [int_gradients.pkl] holds the accumulated
    array, [gradients_and_logits.pkl] the recorded pairs, and every other
    file is as it was. *)
Theorem pickled_maps_are_read_back {T : Type} `{DT : Dtype T}
    (pixels : nat) (dir : string) (N : Z) (rows : list (gradient_dict T))
    (fs : gmap string (pickled T)) :
  (Z.to_nat (N + 1) <= length rows)%nat ->
  Forall (fun r => length (row_gradients r) = pixels) rows ->
  exists st,
    integration_cell pixels dir N (Ok rows) fs = Ok st /\
    (forall i, 0 <= i <= N ->
       exists r, rows !! Z.to_nat i = Some r /\
         pickle_load (files st) (path_gradient_file dir i)
         = Some (PArray (row_gradients r))) /\
    pickle_load (files st) (os_path_join dir "int_gradients.pkl")
    = Some (PArray (int_gradients st)) /\
    pickle_load (files st) (os_path_join dir "gradients_and_logits.pkl")
    = Some (PPairs (gradients_and_logits st)) /\
    (forall path,
       (forall i, 0 <= i <= N -> path <> path_gradient_file dir i) ->
       path <> os_path_join dir "int_gradients.pkl" ->
       path <> os_path_join dir "gradients_and_logits.pkl" ->
       pickle_load (files st) path = pickle_load fs path).
Proof.
  intros Hn Hshape.
  destruct (integration_cell_spec dir N fs Hn Hshape)
    as (st & Hrun & _ & _ & _ & Hgl & Hig & Hkeep & Hget).
  exists st. unfold pickle_load. by repeat split.
Qed.

(** X5.  The record kept for the sanity check: after a run over enough
    well-shaped rows, [gradients_and_logits] holds, in path order, one
    pair (sum of the gradient map, target logit) per path image, the
    generator is left with the rows not read, and with a step count
    N >= 0 the printed total logit difference is the target logit of row N
    minus that of row 0. *)
Theorem gradients_and_logits_follow_the_rows {T : Type} `{DT : Dtype T}
    (pixels : nat) (dir : string) (N : Z) (rows : list (gradient_dict T))
    (fs : gmap string (pickled T)) :
  (Z.to_nat (N + 1) <= length rows)%nat ->
  Forall (fun r => length (row_gradients r) = pixels) rows ->
  exists st,
    integration_cell pixels dir N (Ok rows) fs = Ok st /\
    gradients_and_logits st
    = (fun r => (np_sum (row_gradients r), row_target_logits r))
        <$> take (Z.to_nat (N + 1)) rows /\
    gradient_predictions st = Ok (drop (Z.to_nat (N + 1)) rows) /\
    (0 <= N ->
     exists first last,
       rows !! 0%nat = Some first /\ rows !! Z.to_nat N = Some last /\
       printed_total_logit_diff N (gradients_and_logits st)
       = Ok (row_target_logits last - row_target_logits first)%D).
Proof.
  intros Hn Hshape.
  destruct (integration_cell_spec dir N fs Hn Hshape)
    as (st & Hrun & Hgen & _ & Hgl & _).
  exists st. split; [exact Hrun|]. split; [exact Hgl|]. split; [exact Hgen|].
  intros HN.
  destruct (lookup_lt_is_Some_2 rows 0) as [first Hfirst]; [lia|].
  destruct (lookup_lt_is_Some_2 rows (Z.to_nat N)) as [last Hlast]; [lia|].
  exists first, last. split; [exact Hfirst|]. split; [exact Hlast|].
  unfold printed_total_logit_diff.
  rewrite (@py_getitem_in_range _ (gradients_and_logits st) N (gradient_and_logit last)); [|lia|].
  - rewrite bind_Ok.
    rewrite (@py_getitem_in_range _ (gradients_and_logits st) 0 (gradient_and_logit first));
      [reflexivity | lia |].
    rewrite Hgl, list_lookup_fmap, lookup_take_lt by lia.
    change (Z.to_nat 0) with 0%nat. by rewrite Hfirst.
  - rewrite Hgl, list_lookup_fmap, lookup_take_lt by lia. by rewrite Hlast.
Qed.

Lemma integration_loop_stops {T : Type} `{DT : Dtype T} (pixels : nat) (dir : string)
    (items : list Z) (rows : list (gradient_dict T)) (acc : image T)
    (gl : list (T * T)) (fs : gmap string (pickled T)) :
  (length rows < length items)%nat ->
  length acc = pixels ->
  Forall (fun r => length (row_gradients r) = pixels) rows ->
  for_each (integration_step dir) items
    {| gradient_predictions := Ok rows; int_gradients := acc;
       gradients_and_logits := gl; files := fs |} = Raise StopIteration.
Proof.
  revert rows acc gl fs.
  induction items as [|i items IH]; intros rows acc gl fs Hn Hacc Hrows; simpl in *; [lia|].
  destruct rows as [|r rows]; [reflexivity|].
  apply Forall_cons_1 in Hrows as [Hr Hrows].
  unfold integration_step at 1. simpl.
  unfold np_add, elementwise. rewrite Hacc, Hr, Nat.eqb_refl. simpl.
  apply IH; [simpl in Hn; lia | rewrite length_zip_with; lia | exact Hrows].
Qed.

(** X6.  A generator that yields fewer rows than the loop has passes makes the
    cell raise StopIteration (after the maps it did yield were read). *)
Theorem short_generator_stops_the_cell {T : Type} `{DT : Dtype T}
    (pixels : nat) (dir : string) (N : Z) (rows : list (gradient_dict T))
    (fs : gmap string (pickled T)) :
  (length rows < Z.to_nat (N + 1))%nat ->
  Forall (fun r => length (row_gradients r) = pixels) rows ->
  integration_cell pixels dir N (Ok rows) fs = Raise StopIteration.
Proof.
  intros Hn Hshape. unfold integration_cell.
  rewrite (integration_loop_stops (pixels:=pixels));
    [reflexivity | rewrite py_range_length; lia | apply zeros_length | exact Hshape].
Qed.

(** ** From the image to the pickled maps *)

Lemma rows_of_lookup {T : Type} (pf : list (image T)) (pl : list (list T)) (tl : list T)
    (gs : list (image T)) (i : nat) (r : gradient_dict T) :
  rows_of pf pl tl gs !! i = Some r ->
  pf !! i = Some (row_path_features r) /\ pl !! i = Some (row_path_logits r) /\
  tl !! i = Some (row_target_logits r) /\ gs !! i = Some (row_gradients r).
Proof.
  revert pl tl gs i.
  induction pf as [|f pf IH]; intros [|l pl] [|t tl] [|g gs] i; cbn [rows_of];
    try (rewrite lookup_nil; discriminate).
  destruct i as [|i]; cbn [lookup list_lookup].
  - intros [= <-]. by repeat split.
  - apply IH.
Qed.

(** X7.  The whole run, from the image to the files the plotting cells read:
    with at least one step and an image of the model's shape, the model
    function, [predict] and the integration cell raise nothing; the loop
    takes every row, so that one more [next] on the generator would raise
    StopIteration; and for every path image [i] the file
    [path_gradient_<i>.pkl] holds the gradient of the target logit at
    that path image times the normalised original image, and entry [i]
    of [gradients_and_logits] is the sum of that map with the logit of
    the target class at that path image. *)
Theorem run_stores_the_weighted_gradients {T : Type} `{DT : Dtype T}
    (pixels : nat) (network : image T -> list T)
    (tf_gradient : nat -> image T -> image T) (dir : string) (N : Z)
    (feats : Features T) (fs : gmap string (pickled T)) :
  1 <= N ->
  well_shaped pixels network tf_gradient feats ->
  exists preds rows st,
    gradients_model_fn pixels network tf_gradient N feats = Ok preds /\
    predict preds = Ok rows /\
    integration_cell pixels dir N (Ok rows) fs = Ok st /\
    next (gradient_predictions st) = Raise StopIteration /\
    forall (i : nat) (path_image : image T),
      path_features preds !! i = Some path_image ->
      pickle_load (files st) (path_gradient_file dir (Z.of_nat i))
      = Some (PArray (weighted_gradient tf_gradient feats path_image)) /\
      exists t,
        network path_image !! most_likely_class feats = Some t /\
        py_getitem (gradients_and_logits st) (Z.of_nat i)
        = Ok (np_sum (weighted_gradient tf_gradient feats path_image), t).
Proof.
  intros HN Hshape.
  destruct (predict_rows HN Hshape)
    as (preds & rows & Hrun & Hpred & Hmaps & Hlen & Hall).
  destruct (@integration_cell_spec T DT pixels dir N rows fs)
    as (st & Hcell & Hleft & _ & Hgl & _ & _ & _ & Hfiles); [lia | exact Hall |].
  exists preds, rows, st.
  split; [exact Hrun|]. split; [exact Hpred|]. split; [exact Hcell|].
  split; [rewrite Hleft, drop_ge by lia; reflexivity|].
  intros i path_image Hi.
  assert (Hpaths : length (path_features preds) = length rows).
  { rewrite <- (length_fmap (weighted_gradient tf_gradient feats)), <- Hmaps.
    apply length_fmap. }
  apply lookup_lt_Some in Hi as Hlt.
  destruct (Hfiles (Z.of_nat i)) as (r & Hr & Hfile); [lia|].
  rewrite Nat2Z.id in Hr.
  assert (Hmap : row_gradients r = weighted_gradient tf_gradient feats path_image).
  { assert (Hlook : (row_gradients <$> rows) !! i
                    = (weighted_gradient tf_gradient feats <$> path_features preds) !! i)
      by by rewrite Hmaps.
    rewrite !list_lookup_fmap, Hr, Hi in Hlook. cbn in Hlook. congruence. }
  split; [unfold pickle_load; by rewrite Hfile, Hmap|].
  destruct (model_fn_rows _ _ _ _ _ Hrun) as (_ & _ & Hlogits).
  destruct (Hlogits i path_image Hi) as (_ & t & Ht & Hclass).
  exists t. split; [exact Hclass|].
  assert (Htarget : row_target_logits r = t).
  { unfold predict in Hpred.
    destruct (gradients preds) as [gs|g]; [|discriminate].
    destruct (_ && _); [|discriminate].
    injection Hpred as <-.
    apply rows_of_lookup in Hr as (_ & _ & Htl & _). congruence. }
  apply py_getitem_in_range; [lia|].
  rewrite Nat2Z.id, Hgl, take_ge by lia.
  rewrite list_lookup_fmap, Hr. cbn [fmap option_fmap option_map].
  unfold gradient_and_logit. by rewrite Hmap, Htarget.
Qed.

(** ** The min-max normalisation: range and NaN *)

Section MinMaxNaN.
Variables prec emax : Z.

Lemma fold_minimum_nan (op : spec_float -> spec_float -> spec_float)
    (l : list spec_float) (x : spec_float) :
  (forall a b, op a b = S754_nan <-> a = S754_nan \/ (a <> S754_nan /\ b = S754_nan)) ->
  S754_nan ∈ x :: l -> fold_left op l x = S754_nan.
Proof.
  intros Hop. revert x. induction l as [|z l IH]; intros x Hin; simpl.
  - apply elem_of_cons in Hin as [<-|Hin]; [reflexivity | by apply elem_of_nil in Hin].
  - apply IH. apply elem_of_cons in Hin as [<-|Hin].
    + replace (op S754_nan z) with S754_nan by (symmetry; apply Hop; by left). left.
    + apply elem_of_cons in Hin as [<-|Hin]; [|by right].
      replace (op x S754_nan) with S754_nan; [left|].
      symmetry. apply Hop.
      destruct x; first [by left | by right].
Qed.

Lemma np_minimum_nan (a b : spec_float) :
  np_minimum (DT:=ieee_dtype prec emax) a b = S754_nan
  <-> a = S754_nan \/ (a <> S754_nan /\ b = S754_nan).
Proof.
  unfold np_minimum. simpl.
  destruct a as [sa|sa| |sa ma ea], b as [sb|sb| |sb mb eb]; simpl;
    try destruct (SFleb _ _);
    (split; [intros E; try discriminate E; auto
            | intros [E|[E1 E2]]; try discriminate; try congruence; auto]).
Qed.

Lemma np_maximum_nan (a b : spec_float) :
  np_maximum (DT:=ieee_dtype prec emax) a b = S754_nan
  <-> a = S754_nan \/ (a <> S754_nan /\ b = S754_nan).
Proof.
  unfold np_maximum. simpl.
  destruct a as [sa|sa| |sa ma ea], b as [sb|sb| |sb mb eb]; simpl;
    try destruct (SFleb _ _);
    (split; [intros E; try discriminate E; auto
            | intros [E|[E1 E2]]; try discriminate; try congruence; auto]).
Qed.

End MinMaxNaN.

(** With a NaN entry the minimum and the maximum are NaN and the first
    plot is all NaN. *)
Lemma one_nan_spoils_minmax (prec emax : Z) (gradient_map : image spec_float) :
  S754_nan ∈ gradient_map ->
  ndarray_min (DT:=ieee_dtype prec emax) gradient_map = Ok S754_nan /\
  ndarray_max (DT:=ieee_dtype prec emax) gradient_map = Ok S754_nan /\
  minmax_normalized (DT:=ieee_dtype prec emax) gradient_map
  = Ok (replicate (length gradient_map) S754_nan).
Proof.
  intros Hnan.
  destruct gradient_map as [|x l]; [by apply elem_of_nil in Hnan|].
  assert (Hmin : ndarray_min (DT:=ieee_dtype prec emax) (x :: l) = Ok S754_nan).
  { unfold ndarray_min, ndarray_reduce. f_equal.
    apply fold_minimum_nan; [apply np_minimum_nan | exact Hnan]. }
  assert (Hmax : ndarray_max (DT:=ieee_dtype prec emax) (x :: l) = Ok S754_nan).
  { unfold ndarray_max, ndarray_reduce. f_equal.
    apply fold_minimum_nan; [apply np_maximum_nan | exact Hnan]. }
  split; [exact Hmin|]. split; [exact Hmax|].
  unfold minmax_normalized. rewrite Hmin, Hmax, !bind_Ok. f_equal.
  generalize (x :: l). clear. intros a.
  induction a as [|y a IH]; [reflexivity|].
  rewrite fmap_cons, IH. simpl. f_equal. by destruct y.
Qed.

(** ** The deviation plot *)

Lemma sorted_entries_perm {T : Type} `{DT : Dtype T} (a : image T) :
  sorted_entries a ≡ₚ a.
Proof. apply sorting.merge_sort_Permutation. Qed.

Lemma sorted_entries_lookup {T : Type} `{DT : Dtype T} (a : image T) (k : nat) :
  (k < length a)%nat -> exists y, sorted_entries a !! k = Some y /\ y ∈ a.
Proof.
  intros Hk.
  destruct (lookup_lt_is_Some_2 (sorted_entries a) k) as [y Hy].
  { by rewrite (Permutation_length (sorted_entries_perm a)). }
  exists y. split; [exact Hy|].
  rewrite <- (sorted_entries_perm a). by apply list_elem_of_lookup_2 in Hy.
Qed.

Section DeviationIEEE.
Variables prec emax : Z.

Lemma nan_median (a : image spec_float) :
  S754_nan ∈ a -> np_median (DT:=ieee_dtype prec emax) a = S754_nan.
Proof.
  intros Hnan. unfold np_median.
  destruct (list_find_elem_of (fun x => isnan (Dtype:=ieee_dtype prec emax) x = true)
              a S754_nan Hnan eq_refl) as [[i x] Hfind].
  rewrite Hfind. apply list_find_Some in Hfind as (_ & Hx & _).
  by destruct x.
Qed.

Lemma deviation_entry_nan (x d : spec_float) :
  SFdiv prec emax (SFmul prec emax (SFabs (SFsub prec emax x S754_nan))
                         (AMPLIFICATION (DT:=ieee_dtype prec emax))) d = S754_nan.
Proof.
  replace (SFsub prec emax x S754_nan) with S754_nan by by destruct x.
  reflexivity.
Qed.

Lemma no_nan_in_constant (n : nat) (c : spec_float) :
  c <> S754_nan ->
  list_find (fun x => isnan (Dtype:=ieee_dtype prec emax) x = true) (replicate n c) = None.
Proof.
  intros Hc. apply list_find_None, Forall_forall.
  intros x Hx%list_elem_of_In%elem_of_replicate. destruct Hx as [-> _].
  simpl. by destruct c.
Qed.

Lemma constant_median (n : nat) (c : spec_float) :
  n <> 0%nat -> c <> S754_nan ->
  SFdiv prec emax (SFadd prec emax c c) (ieee_lit prec emax 2 0) = c ->
  np_median (DT:=ieee_dtype prec emax) (replicate n c) = c.
Proof.
  intros Hn Hc Hmean. unfold np_median.
  rewrite no_nan_in_constant by done. rewrite length_replicate.
  replace (n =? 0)%nat with false by (symmetry; by apply Nat.eqb_neq).
  assert (Hsorted : sorted_entries (DT:=ieee_dtype prec emax) (replicate n c)
                    = replicate n c).
  { symmetry. apply replicate_Permutation. symmetry. apply sorted_entries_perm. }
  rewrite Hsorted.
  assert (Hhalf : (n / 2 < n)%nat) by (apply Nat.div_lt; lia).
  destruct (Nat.even n) eqn:Heven.
  - rewrite !lookup_replicate_2 by lia. simpl. exact Hmean.
  - rewrite lookup_replicate_2 by lia. reflexivity.
Qed.

Lemma constant_deviation_entry (c : spec_float) :
  SFdiv prec emax
    (SFmul prec emax (SFabs (SFsub prec emax c c))
           (AMPLIFICATION (DT:=ieee_dtype prec emax)))
    (py_max (DT:=ieee_dtype prec emax) (SFsub prec emax c c) (SFsub prec emax c c))
  = S754_nan.
Proof.
  assert (Hd : SFsub prec emax c c = S754_zero false \/ SFsub prec emax c c = S754_nan).
  { destruct c as [s|s| |s m e]; try (destruct s; auto; fail); auto.
    left. cbn [SFsub]. rewrite Z.sub_diag. reflexivity. }
  assert (Hmax : forall d, py_max (DT:=ieee_dtype prec emax) d d = d)
    by (intros d; unfold py_max; by destruct (dltb d d)).
  rewrite Hmax. destruct Hd as [-> | ->]; [|reflexivity].
  simpl SFabs. by destruct (AMPLIFICATION (DT:=ieee_dtype prec emax)) as [[]|[]| |[] ? ?].
Qed.

End DeviationIEEE.

(** X11.  One NaN entry spoils both plots: in IEEE arithmetic, if a gradient map
    contains a NaN, its minimum, maximum and median are NaN, and both
    normalisations return, without raising, an array of the same size
    whose every entry is NaN. *)
Theorem one_nan_spoils_both_plots (prec emax : Z) (gradient_map : image spec_float) :
  S754_nan ∈ gradient_map ->
  ndarray_min (DT:=ieee_dtype prec emax) gradient_map = Ok S754_nan /\
  ndarray_max (DT:=ieee_dtype prec emax) gradient_map = Ok S754_nan /\
  np_median (DT:=ieee_dtype prec emax) gradient_map = S754_nan /\
  minmax_normalized (DT:=ieee_dtype prec emax) gradient_map
  = Ok (replicate (length gradient_map) S754_nan) /\
  deviation_normalized (DT:=ieee_dtype prec emax) gradient_map
  = Ok (replicate (length gradient_map) S754_nan).
Proof.
  intros Hnan.
  destruct (one_nan_spoils_minmax prec emax Hnan) as (Hmin & Hmax & Hplot).
  pose proof (nan_median prec emax Hnan) as Hmed.
  repeat (split; [done|]).
  unfold deviation_normalized. rewrite Hmin, Hmax, !bind_Ok, Hmed. f_equal.
  generalize gradient_map. clear. intros a.
  induction a as [|y a IH]; [reflexivity|].
  rewrite fmap_cons, IH. cbn [length replicate]. f_equal.
  apply deviation_entry_nan.
Qed.

(** X12.  The second plot of a constant gradient map is all NaN as well: for a
    non-empty map whose entries all equal a value [c] that is not NaN and
    whose mean with itself is [c] (every [c] short of overflow), median,
    minimum and maximum are [c] and the normalisation divides zero by
    zero at every entry without raising. *)
Theorem constant_map_deviation_is_nan (prec emax : Z)
    (gradient_map : image spec_float) (c : spec_float) :
  gradient_map <> [] ->
  (forall x, x ∈ gradient_map -> x = c) ->
  c <> S754_nan ->
  SFdiv prec emax (SFadd prec emax c c) (ieee_lit prec emax 2 0) = c ->
  np_median (DT:=ieee_dtype prec emax) gradient_map = c /\
  deviation_normalized (DT:=ieee_dtype prec emax) gradient_map
  = Ok (replicate (length gradient_map) S754_nan).
Proof.
  intros Hne Hall Hc Hmean.
  rewrite (constant_is_replicate Hall) at 1 2.
  assert (Hn : length gradient_map <> 0%nat) by (destruct gradient_map; [done | simpl; lia]).
  pose proof (constant_median prec emax Hn Hc Hmean) as Hmed.
  split; [exact Hmed|].
  unfold deviation_normalized. rewrite Hmed.
  destruct (length gradient_map) as [|n]; [done|].
  unfold ndarray_min, ndarray_max, ndarray_reduce. cbn [replicate]. rewrite !bind_Ok.
  rewrite (fold_constant _ _ (np_minimum_same prec emax c)).
  rewrite (fold_constant _ _ (np_maximum_same prec emax c)).
  f_equal. change (c :: replicate n c) with (replicate (S n) c).
  rewrite fmap_replicate.
  change (S754_nan :: replicate n S754_nan) with (replicate (S n) S754_nan).
  f_equal. exact (constant_deviation_entry prec emax c).
Qed.

(** ** The label cell *)

Lemma but_last_snoc (s : string) (c : Ascii.ascii) : but_last (s +:+ String c "") = s.
Proof.
  induction s as [|a s IH]; [reflexivity|].
  change (String a s +:+ String c "") with (String a (s +:+ String c "")).
  cbn [but_last]. rewrite IH.
  destruct s; reflexivity.
Qed.

Lemma py_getitem_raises {A : Type} (xs : list A) (k : Z) (e : exn) :
  py_getitem xs k = Raise e -> e = IndexError.
Proof.
  unfold py_getitem. cbv zeta.
  destruct (_ && _); [destruct (xs !! _)|]; congruence.
Qed.

Lemma py_getitem_second {A : Type} (row : list A) :
  py_getitem row 1
  = match row !! 1%nat with Some field => Ok field | None => Raise IndexError end.
Proof.
  unfold py_getitem. cbv zeta.
  change (1 <? 0) with false. cbv iota. change (0 <=? 1) with true.
  change (Z.to_nat 1) with 1%nat.
  destruct (row !! 1%nat) as [field|] eqn:Hf.
  - apply lookup_lt_Some in Hf.
    replace (1 <? Z.of_nat (length row)) with true by (symmetry; apply Z.ltb_lt; lia).
    reflexivity.
  - destruct (1 <? Z.of_nat (length row)); reflexivity.
Qed.

Lemma read_labels_from (label_reader : list (list string)) (labels : list string) :
  Forall (fun row => (2 <= length row)%nat) label_reader ->
  for_each (fun row labels => field <- py_getitem row 1 ;; Ok (labels ++ [but_last field]))
           label_reader labels
  = Ok (labels ++ ((fun row => but_last (default ""%string (row !! 1%nat))) <$> label_reader)).
Proof.
  intros Hrows. revert labels.
  induction Hrows as [|row rows Hrow _ IH]; intros labels.
  - cbn [for_each fmap list_fmap]. by rewrite app_nil_r.
  - cbn [for_each]. rewrite py_getitem_second.
    destruct (lookup_lt_is_Some_2 row 1%nat) as [field Hf]; [lia|].
    rewrite Hf. cbn [bind]. rewrite IH, fmap_cons, Hf. cbn [default].
    by rewrite <- app_assoc.
Qed.

(** X16.  Reading the labels: when every row of the label file has a second
    field, the loop raises nothing and yields one label per row, in order:
    the row's second field without its last character, so that a field
    that ends in a comma gives what stands before the comma. *)
Theorem labels_are_trimmed_second_fields (label_reader : list (list string)) :
  Forall (fun row => (2 <= length row)%nat) label_reader ->
  exists labels,
    read_labels label_reader = Ok labels /\
    length labels = length label_reader /\
    forall (k : nat) (row : list string),
      label_reader !! k = Some row ->
      exists field,
        row !! 1%nat = Some field /\
        labels !! k = Some (but_last field) /\
        forall name, field = name +:+ "," -> labels !! k = Some name.
Proof.
  intros Hrows. eexists. split; [apply (read_labels_from [] Hrows)|].
  rewrite app_nil_l. split; [apply length_fmap|].
  intros k row Hk.
  rewrite Forall_forall in Hrows.
  assert (Hlen : (2 <= length row)%nat).
  { apply Hrows, list_elem_of_In. by apply list_elem_of_lookup_2 in Hk. }
  destruct (lookup_lt_is_Some_2 row 1%nat) as [field Hf]; [lia|].
  exists field. split; [exact Hf|].
  assert (Hlabel : ((fun row => but_last (default ""%string (row !! 1%nat))) <$> label_reader)
                   !! k = Some (but_last field)).
  { rewrite list_lookup_fmap, Hk. cbn [fmap option_fmap option_map]. by rewrite Hf. }
  split; [exact Hlabel|].
  intros name ->. rewrite Hlabel. f_equal. apply but_last_snoc.
Qed.

Lemma read_labels_stops_from (label_reader : list (list string)) (labels : list string) :
  for_each (fun row labels => field <- py_getitem row 1 ;; Ok (labels ++ [but_last field]))
           label_reader labels = Raise IndexError
  <-> Exists (fun row => (length row < 2)%nat) label_reader.
Proof.
  revert labels. induction label_reader as [|row rows IH]; intros labels.
  - cbn [for_each]. split; [discriminate|]. intros H. inversion H.
  - cbn [for_each]. rewrite py_getitem_second.
    destruct (row !! 1%nat) as [field|] eqn:Hf; cbn [bind].
    + rewrite IH. apply lookup_lt_Some in Hf. split.
      * intros H. by apply Exists_cons_tl.
      * intros H. inversion H as [? ? Hshort|]; [lia | done].
    + apply lookup_ge_None in Hf. split; [|reflexivity].
      intros _. apply Exists_cons_hd. lia.
Qed.

(** X17.  A row without a second field (a blank line, a line without a colon)
    is the one thing that stops the reading of the labels: the loop
    raises IndexError exactly when there is such a row. *)
Theorem row_without_second_field_stops_reading (label_reader : list (list string)) :
  read_labels label_reader = Raise IndexError
  <-> Exists (fun row => (length row < 2)%nat) label_reader.
Proof. apply read_labels_stops_from. Qed.

(** X18.  A class index outside the label list is the one thing that stops the
    naming of the classes: [labels[x - 1]] raises IndexError exactly when
    some class index is larger than the number of labels or below
    1 - that number (class 0 and the negative indices down to there wrap
    around to the end of the list). *)
Theorem class_outside_the_labels_is_refused (labels : list string) (classval : list Z) :
  class_names labels classval = Raise IndexError
  <-> Exists (fun c => c < 1 - Z.of_nat (length labels) \/ Z.of_nat (length labels) < c)
             classval.
Proof.
  unfold class_names.
  induction classval as [|c cs IH].
  - cbn [comprehension]. split; [discriminate|]. intros H. inversion H.
  - cbn [comprehension].
    destruct (py_getitem labels (c - 1)) as [name|e] eqn:Hc; cbn [bind].
    + assert (Hin : 1 - Z.of_nat (length labels) <= c <= Z.of_nat (length labels)).
      { unfold py_getitem in Hc. cbv zeta in Hc.
        destruct (c - 1 <? 0) eqn:Hneg;
          destruct (_ && _) eqn:Hpos in Hc; try discriminate;
          apply andb_prop in Hpos as [H1%Z.leb_le H2%Z.ltb_lt];
          [apply Z.ltb_lt in Hneg | apply Z.ltb_ge in Hneg]; lia. }
      destruct (comprehension _ cs) as [names|e] eqn:Hrest; cbn [bind].
      * split; [discriminate|].
        intros H. inversion H as [? ? Hout|? ? Hex]; [lia|].
        apply IH in Hex. discriminate.
      * split.
        -- intros [= ->]. apply Exists_cons_tl, IH. reflexivity.
        -- intros H. inversion H as [? ? Hout|? ? Hex]; [lia|].
           apply IH in Hex. exact Hex.
    + apply py_getitem_raises in Hc as Hc'. subst e. split; [|reflexivity].
      intros _. apply Exists_cons_hd.
      unfold py_getitem in Hc. cbv zeta in Hc.
      destruct (c - 1 <? 0) eqn:Hneg.
      * apply Z.ltb_lt in Hneg.
        destruct (_ && _) eqn:Hpos in Hc.
        -- apply andb_prop in Hpos as [H1%Z.leb_le H2%Z.ltb_lt].
           destruct (lookup_lt_is_Some_2 labels
                       (Z.to_nat (Z.of_nat (length labels) + (c - 1)))) as [x Hx]; [lia|].
           rewrite Hx in Hc. discriminate.
        -- apply andb_false_iff in Hpos as [H1%Z.leb_gt|H2%Z.ltb_ge]; lia.
      * apply Z.ltb_ge in Hneg.
        destruct (_ && _) eqn:Hpos in Hc.
        -- apply andb_prop in Hpos as [H1%Z.leb_le H2%Z.ltb_lt].
           destruct (lookup_lt_is_Some_2 labels (Z.to_nat (c - 1))) as [x Hx]; [lia|].
           rewrite Hx in Hc. discriminate.
        -- apply andb_false_iff in Hpos as [H1%Z.leb_gt|H2%Z.ltb_ge]; lia.
Qed.

Lemma seqZ_succ (lo : Z) (n : nat) :
  seqZ lo (Z.of_nat (S n)) = lo :: seqZ (lo + 1) (Z.of_nat n).
Proof.
  rewrite seqZ_cons by lia. f_equal. f_equal; lia.
Qed.

Lemma print_lines_spec (lines : list string) (n lo : nat) (printed : list string) :
  (lo <= length lines)%nat ->
  print_lines lines (seqZ (Z.of_nat lo) (Z.of_nat n)) printed
  = if decide (lo + n <= length lines)%nat
    then (printed ++ take n (drop lo lines), Ok tt)
    else (printed ++ drop lo lines, Raise IndexError).
Proof.
  revert lo printed. induction n as [|n IH]; intros lo printed Hlo.
  - change (seqZ (Z.of_nat lo) (Z.of_nat 0)) with (@nil Z). cbn [print_lines].
    rewrite take_0, app_nil_r.
    destruct (decide _) as [|Hn]; [reflexivity | lia].
  - rewrite seqZ_succ. cbn [print_lines].
    destruct (lines !! lo) as [line|] eqn:Hline.
    + rewrite (@py_getitem_in_range _ lines (Z.of_nat lo) line) by (rewrite ?Nat2Z.id; done || lia).
      replace (Z.of_nat lo + 1) with (Z.of_nat (S lo)) by lia.
      apply lookup_lt_Some in Hline as Hlt.
      rewrite IH by lia. rewrite (drop_S _ _ _ Hline).
      destruct (decide (S lo + n <= length lines)%nat),
               (decide (lo + S n <= length lines)%nat); try lia.
      * cbn [take]. by rewrite <- app_assoc.
      * by rewrite <- app_assoc.
    + apply lookup_ge_None in Hline.
      destruct (decide _) as [|_]; [lia|].
      rewrite drop_ge by lia. rewrite app_nil_r.
      destruct (py_getitem lines (Z.of_nat lo)) as [line|e] eqn:Hget.
      * exfalso. unfold py_getitem in Hget. cbv zeta in Hget.
        replace (Z.of_nat lo <? 0) with false in Hget by (symmetry; apply Z.ltb_ge; lia).
        replace (Z.of_nat lo <? Z.of_nat (length lines)) with false in Hget
          by (symmetry; apply Z.ltb_ge; lia).
        rewrite andb_false_r in Hget. discriminate.
      * apply py_getitem_raises in Hget. by subst e.
Qed.

Section LabelCellOutcome.
Context {P : Type}.
Variable str : P -> string.

(** X19.  With the labels read and every class index within them, the cell
    prints five lines when there are at least five classes and
    probabilities, line [j] being the [j]-th probability, the separator
    and the name of the [j]-th class; with fewer it prints the lines it
    has and then raises IndexError. *)
Theorem five_lines_or_index_error (label_reader : list (list string))
    (labels : list string) (classval : list Z) (probsval : list P) :
  read_labels label_reader = Ok labels ->
  Forall (fun c => 1 <= c <= Z.of_nat (length labels)) classval ->
  exists printed,
    (forall (j : nat) (line : string),
       printed !! j = Some line ->
       exists c p name,
         classval !! j = Some c /\ probsval !! j = Some p /\
         labels !! Z.to_nat (c - 1) = Some name /\
         line = str p +:+ " : " +:+ name) /\
    if decide (5 <= length classval `min` length probsval)%nat
    then label_cell str label_reader classval probsval = (printed, Ok tt) /\
         length printed = 5%nat
    else label_cell str label_reader classval probsval = (printed, Raise IndexError) /\
         length printed = (length classval `min` length probsval)%nat.
Proof.
  intros Hread Hrange.
  set (names := (fun c => default ""%string (labels !! Z.to_nat (c - 1))) <$> classval).
  assert (Hnames : class_names labels classval = Ok names).
  { unfold class_names. apply comprehension_total.
    rewrite Forall_forall in Hrange.
    intros c Hc%list_elem_of_In%Hrange.
    destruct (lookup_lt_is_Some_2 labels (Z.to_nat (c - 1))) as [name Hname]; [lia|].
    rewrite Hname. cbn [default]. apply py_getitem_in_range; [lia | exact Hname]. }
  assert (Hlines : forall (j : nat) (line : string),
            class_and_probs str names probsval !! j = Some line ->
            exists c p name,
              classval !! j = Some c /\ probsval !! j = Some p /\
              labels !! Z.to_nat (c - 1) = Some name /\
              line = str p +:+ " : " +:+ name).
  { intros j line Hj. unfold class_and_probs in Hj.
    apply lookup_zip_with_Some in Hj as (name & p & -> & Hname & Hp).
    unfold names in Hname. rewrite list_lookup_fmap in Hname.
    destruct (classval !! j) as [c|] eqn:Hc; [|discriminate].
    injection Hname as <-. exists c, p.
    rewrite Forall_forall in Hrange.
    assert (Hcr : 1 <= c <= Z.of_nat (length labels)).
    { apply Hrange, list_elem_of_In. by apply list_elem_of_lookup_2 in Hc. }
    destruct (lookup_lt_is_Some_2 labels (Z.to_nat (c - 1))) as [name Hname]; [lia|].
    exists name. rewrite Hname. cbn [default]. done. }
  assert (Hlen : length (class_and_probs str names probsval)
                 = (length classval `min` length probsval)%nat).
  { unfold class_and_probs, names. by rewrite length_zip_with, length_fmap. }
  assert (Hcell : label_cell str label_reader classval probsval
                  = print_lines (class_and_probs str names probsval) (py_range 0 5) []).
  { unfold label_cell. rewrite Hread. cbn [bind]. by rewrite Hnames. }
  pose proof (@print_lines_spec (class_and_probs str names probsval) 5 0 []
                ltac:(lia)) as Hprint.
  change (seqZ (Z.of_nat 0) (Z.of_nat 5)) with (py_range 0 5) in Hprint.
  rewrite drop_0, app_nil_l, Hlen in Hprint. cbn [Nat.add] in Hprint.
  destruct (decide (5 <= length classval `min` length probsval)%nat) as [Hfive|Hless].
  - exists (take 5 (class_and_probs str names probsval)). split.
    + intros j line Hj. apply lookup_take_Some in Hj as [Hj _]. by apply Hlines.
    + split; [by rewrite Hcell|].
      rewrite length_take. lia.
  - exists (class_and_probs str names probsval). split; [exact Hlines|].
    split; [by rewrite Hcell | exact Hlen].
Qed.

End LabelCellOutcome.

(** ** resize_and_pad_image *)

Lemma sides_check_512 : sides_check 512 = true.
Proof. vm_cast_no_check (eq_refl true). Qed.

Lemma sides_check_spec (bound m x : Z) :
  sides_check bound = true ->
  1 <= x <= m -> m <= bound ->
  exists ratio a b,
    ratio_of _DEFAULT_IMAGE_SIZE m = inr ratio /\
    scaled ratio x = inr a /\ scaled ratio m = inr b /\
    0 <= a <= b /\ (b = 223 \/ b = 224) /\ (a = 0 <-> 224 * x < m).
Proof.
  intros Hc Hx Hm. unfold sides_check in Hc.
  apply forallb_range with (v := m) in Hc; [|lia]. cbv beta in Hc.
  destruct (ratio_of _DEFAULT_IMAGE_SIZE m) as [e|ratio] eqn:Hratio; [discriminate|].
  destruct (scaled ratio m) as [e|b] eqn:Hm'; [discriminate|].
  apply andb_prop in Hc as [Hb Hall].
  apply forallb_range with (v := x) in Hall; [|lia]. cbv beta in Hall.
  destruct (scaled ratio x) as [e|a] eqn:Hx'; [discriminate|].
  apply andb_prop in Hall as [[H0%Z.leb_le Hab%Z.leb_le]%andb_prop Hzero%Bool.eqb_prop].
  exists ratio, a, b.
  split; [reflexivity|]. split; [exact Hx'|]. split; [exact Hm'|]. split; [lia|].
  split.
  - apply orb_prop in Hb as [->%Z.eqb_eq| ->%Z.eqb_eq]; [by left | by right].
  - rewrite <- Z.eqb_eq, <- Z.ltb_lt, Hzero. reflexivity.
Qed.

Lemma scaled_sides (m x : Z) :
  1 <= x <= m -> m <= 512 ->
  exists ratio a b,
    ratio_of _DEFAULT_IMAGE_SIZE m = inr ratio /\
    scaled ratio x = inr a /\ scaled ratio m = inr b /\
    0 <= a <= b /\ (b = 223 \/ b = 224) /\ (a = 0 <-> 224 * x < m).
Proof. exact (@sides_check_spec 512 m x sides_check_512). Qed.

(** X20.  Where the scaled image goes, for every image of 1 to 512 pixels a
    side and the notebook's output size of 224.  If the longer side is
    more than 224 times the shorter one, the shorter side is scaled to 0
    and [img.resize] refuses the size.  Otherwise the function raises
    nothing; the longer side is scaled to 223 or 224 pixels (the product
    with the float64 ratio can fall just short of 224 before it is
    truncated), the shorter side to at least 1 and no more than the
    longer; the paste corner is on the canvas, at 0 along the longer
    side, and the pasted image lies within the canvas. *)
Theorem scaled_image_fits_the_canvas (w h : Z) :
  1 <= w <= 512 -> 1 <= h <= 512 ->
  (224 * Z.min w h < Z.max w h ->
   resize_and_pad_image (w, h) _DEFAULT_IMAGE_SIZE = inl EmptySizeError) /\
  (Z.max w h <= 224 * Z.min w h ->
   exists p,
     resize_and_pad_image (w, h) _DEFAULT_IMAGE_SIZE = inr p /\
     (Z.max (fst (new_size p)) (snd (new_size p)) = 223 \/
      Z.max (fst (new_size p)) (snd (new_size p)) = 224) /\
     1 <= fst (new_size p) /\ 1 <= snd (new_size p) /\
     (w <= h -> fst (new_size p) <= snd (new_size p) /\ snd (paste_at p) = 0) /\
     (h <= w -> snd (new_size p) <= fst (new_size p) /\ fst (paste_at p) = 0) /\
     0 <= fst (paste_at p) /\ fst (paste_at p) + fst (new_size p) <= 224 /\
     0 <= snd (paste_at p) /\ snd (paste_at p) + snd (new_size p) <= 224).
Proof.
  intros Hw Hh. unfold resize_and_pad_image. cbn [fst snd].
  destruct (Z.le_ge_cases w h) as [Hle|Hle].
  - destruct (@scaled_sides h w ltac:(lia) ltac:(lia))
      as (ratio & a & b & Hratio & Ha & Hb & Hab & H224 & Hzero).
    rewrite Z.max_r, Z.min_l by lia. rewrite Hratio. cbn [and_then].
    rewrite Ha. cbn [and_then]. rewrite Hb. cbn [and_then].
    unfold pil_resize. cbn [fst snd]. split.
    + intros Hthin. apply Hzero in Hthin. subst a. reflexivity.
    + intros Hwide.
      assert (Ha1 : 1 <= a) by (destruct (decide (a = 0)) as [E|E]; [apply Hzero in E|]; lia).
      replace (0 <? a) with true by (symmetry; apply Z.ltb_lt; lia).
      replace (0 <? b) with true by (symmetry; apply Z.ltb_lt; lia).
      cbn [andb and_then]. eexists. split; [reflexivity|].
      cbn [new_size paste_at fst snd]. unfold _DEFAULT_IMAGE_SIZE.
      pose proof (Z.div_mod (224 - a) 2 ltac:(lia)) as Hda.
      pose proof (Z.mod_pos_bound (224 - a) 2 ltac:(lia)) as Hma.
      assert (Hb0 : (224 - b) `div` 2 = 0) by (destruct H224 as [-> | ->]; reflexivity).
      rewrite Hb0.
      repeat split; try lia.
      all: assert (w = h) by lia; subst w; assert (a = b) by congruence; subst a.
      * lia.
      * exact Hb0.
  - destruct (@scaled_sides w h ltac:(lia) ltac:(lia))
      as (ratio & a & b & Hratio & Ha & Hb & Hab & H224 & Hzero).
    rewrite Z.max_l, Z.min_r by lia. rewrite Hratio. cbn [and_then].
    rewrite Hb. cbn [and_then]. rewrite Ha. cbn [and_then].
    unfold pil_resize. cbn [fst snd]. split.
    + intros Hthin. apply Hzero in Hthin. subst a.
      change (0 <? 0) with false. rewrite andb_false_r. reflexivity.
    + intros Hwide.
      assert (Ha1 : 1 <= a) by (destruct (decide (a = 0)) as [E|E]; [apply Hzero in E|]; lia).
      replace (0 <? a) with true by (symmetry; apply Z.ltb_lt; lia).
      replace (0 <? b) with true by (symmetry; apply Z.ltb_lt; lia).
      cbn [andb and_then]. eexists. split; [reflexivity|].
      cbn [new_size paste_at fst snd]. unfold _DEFAULT_IMAGE_SIZE.
      pose proof (Z.div_mod (224 - a) 2 ltac:(lia)) as Hda.
      pose proof (Z.mod_pos_bound (224 - a) 2 ltac:(lia)) as Hma.
      assert (Hb0 : (224 - b) `div` 2 = 0) by (destruct H224 as [-> | ->]; reflexivity).
      rewrite Hb0.
      repeat split; try lia.
      all: assert (w = h) by lia; subst w; assert (a = b) by congruence; subst a.
      * lia.
      * exact Hb0.
Qed.

(** A 55 by 40 image is scaled to 223 by 162 and pasted at (0, 31): the
    last column of the canvas stays black.  A 512 by 1 image is refused
    by [img.resize], an image without pixels by the division. *)
Example narrow_image_is_one_pixel_short :
  resize_and_pad_image (55, 40) _DEFAULT_IMAGE_SIZE
  = inr {| new_size := (223, 162); paste_at := (0, 31) |}.
Proof. vm_compute. reflexivity. Qed.

Example thin_image_is_refused :
  resize_and_pad_image (512, 1) _DEFAULT_IMAGE_SIZE = inl EmptySizeError.
Proof. vm_compute. reflexivity. Qed.

Example empty_image_is_refused :
  resize_and_pad_image (0, 0) _DEFAULT_IMAGE_SIZE = inl ZeroDivisionError.
Proof. vm_compute. reflexivity. Qed.

(** ** The properties of this part at concrete inputs *)

Lemma wrong_image_size_is_refused_witness :
  1 <= 30 /\
  length (images {| images := float32_image; most_likely_class := 1%nat |}) <> 3%nat /\
  gradients_model_fn (DT:=float32) 3 (toy_network (DT:=float32) 3)
    (toy_gradient (DT:=float32)) 30
    {| images := float32_image; most_likely_class := 1%nat |} = Raise ValueError.
Proof.
  assert (H0 : 1 <= 30) by lia.
  assert (H1 : length (images {| images := float32_image; most_likely_class := 1%nat |})
               <> 3%nat) by (intros H; discriminate H).
  split; [exact H0|]. split; [exact H1|].
  exact (@wrong_image_size_is_refused spec_float float32 3 _ _ 30 _ H0 H1).
Defined.

Lemma unknown_class_is_refused_witness :
  length (images {| images := float32_image; most_likely_class := 5%nat |}) = 2%nat /\
  (forall c x, length (toy_gradient (DT:=float32) c x) = length x) /\
  (length (toy_network (DT:=float32) 3 (zeros (DT:=float32) 2))
   <= most_likely_class {| images := float32_image; most_likely_class := 5%nat |})%nat /\
  gradients_model_fn (DT:=float32) 2 (toy_network (DT:=float32) 3)
    (toy_gradient (DT:=float32)) 30
    {| images := float32_image; most_likely_class := 5%nat |}
  = Raise InvalidArgumentError.
Proof.
  assert (H1 : length (images {| images := float32_image; most_likely_class := 5%nat |})
               = 2%nat) by reflexivity.
  assert (H2 : forall c x, length (toy_gradient (DT:=float32) c x) = length x)
    by (intros c x; apply length_fmap).
  assert (H3 : (length (toy_network (DT:=float32) 3 (zeros (DT:=float32) 2))
                <= most_likely_class
                     {| images := float32_image; most_likely_class := 5%nat |})%nat).
  { unfold toy_network. rewrite length_fmap, length_seq. cbn [most_likely_class]. lia. }
  split; [exact H1|]. split; [exact H2|]. split; [exact H3|].
  exact (@unknown_class_is_refused spec_float float32 2 _ _ 30 _ H1 H2 H3).
Defined.

Lemma pickled_maps_are_read_back_witness :
  (Z.to_nat (1 + 1) <= length float32_rows)%nat /\
  Forall (fun r => length (row_gradients r) = 2%nat) float32_rows /\
  exists st,
    integration_cell (DT:=float32) 2 "visualization" 1 (Ok float32_rows) ∅ = Ok st /\
    (forall i, 0 <= i <= 1 ->
       exists r, float32_rows !! Z.to_nat i = Some r /\
         pickle_load (files st) (path_gradient_file "visualization" i)
         = Some (PArray (row_gradients r))) /\
    pickle_load (files st) (os_path_join "visualization" "int_gradients.pkl")
    = Some (PArray (int_gradients st)) /\
    pickle_load (files st) (os_path_join "visualization" "gradients_and_logits.pkl")
    = Some (PPairs (gradients_and_logits st)) /\
    (forall path,
       (forall i, 0 <= i <= 1 -> path <> path_gradient_file "visualization" i) ->
       path <> os_path_join "visualization" "int_gradients.pkl" ->
       path <> os_path_join "visualization" "gradients_and_logits.pkl" ->
       pickle_load (files st) path = pickle_load ∅ path).
Proof.
  assert (H1 : (Z.to_nat (1 + 1) <= length float32_rows)%nat) by (vm_compute; lia).
  assert (H2 : Forall (fun r => length (row_gradients r) = 2%nat) float32_rows)
    by (repeat constructor).
  split; [exact H1|]. split; [exact H2|].
  exact (@pickled_maps_are_read_back spec_float float32 2 "visualization" 1 _ ∅ H1 H2).
Defined.

Lemma gradients_and_logits_follow_the_rows_witness :
  (Z.to_nat (1 + 1) <= length float32_rows)%nat /\
  Forall (fun r => length (row_gradients r) = 2%nat) float32_rows /\
  exists st,
    integration_cell (DT:=float32) 2 "visualization" 1 (Ok float32_rows) ∅ = Ok st /\
    gradients_and_logits st
    = (fun r => (np_sum (DT:=float32) (row_gradients r), row_target_logits r))
        <$> take (Z.to_nat (1 + 1)) float32_rows /\
    gradient_predictions st = Ok (drop (Z.to_nat (1 + 1)) float32_rows) /\
    (0 <= 1 ->
     exists first last,
       float32_rows !! 0%nat = Some first /\ float32_rows !! Z.to_nat 1 = Some last /\
       printed_total_logit_diff (DT:=float32) 1 (gradients_and_logits st)
       = Ok (dsub (Dtype:=float32) (row_target_logits last) (row_target_logits first))).
Proof.
  assert (H1 : (Z.to_nat (1 + 1) <= length float32_rows)%nat) by (vm_compute; lia).
  assert (H2 : Forall (fun r => length (row_gradients r) = 2%nat) float32_rows)
    by (repeat constructor).
  split; [exact H1|]. split; [exact H2|].
  exact (@gradients_and_logits_follow_the_rows spec_float float32 2 "visualization" 1
           _ ∅ H1 H2).
Defined.

Lemma short_generator_stops_the_cell_witness :
  (length float32_rows < Z.to_nat (30 + 1))%nat /\
  Forall (fun r => length (row_gradients r) = 2%nat) float32_rows /\
  integration_cell (DT:=float32) 2 "visualization" 30 (Ok float32_rows) ∅
  = Raise StopIteration.
Proof.
  assert (H1 : (length float32_rows < Z.to_nat (30 + 1))%nat) by (vm_compute; lia).
  assert (H2 : Forall (fun r => length (row_gradients r) = 2%nat) float32_rows)
    by (repeat constructor).
  split; [exact H1|]. split; [exact H2|].
  exact (@short_generator_stops_the_cell spec_float float32 2 "visualization" 30
           _ ∅ H1 H2).
Defined.

Lemma one_nan_spoils_both_plots_witness :
  S754_nan ∈ [ieee_lit 53 1024 1 0; S754_nan] /\
  ndarray_min (DT:=float64) [ieee_lit 53 1024 1 0; S754_nan] = Ok S754_nan /\
  ndarray_max (DT:=float64) [ieee_lit 53 1024 1 0; S754_nan] = Ok S754_nan /\
  np_median (DT:=float64) [ieee_lit 53 1024 1 0; S754_nan] = S754_nan /\
  minmax_normalized (DT:=float64) [ieee_lit 53 1024 1 0; S754_nan]
  = Ok (replicate (length [ieee_lit 53 1024 1 0; S754_nan]) S754_nan) /\
  deviation_normalized (DT:=float64) [ieee_lit 53 1024 1 0; S754_nan]
  = Ok (replicate (length [ieee_lit 53 1024 1 0; S754_nan]) S754_nan).
Proof.
  assert (H1 : S754_nan ∈ [ieee_lit 53 1024 1 0; S754_nan])
    by apply list_elem_of_further, list_elem_of_here.
  split; [exact H1|].
  exact (@one_nan_spoils_both_plots 53 1024 _ H1).
Defined.

Lemma constant_map_deviation_is_nan_witness :
  [ieee_lit 53 1024 1 0; ieee_lit 53 1024 1 0] <> [] /\
  (forall x, x ∈ [ieee_lit 53 1024 1 0; ieee_lit 53 1024 1 0] -> x = ieee_lit 53 1024 1 0) /\
  ieee_lit 53 1024 1 0 <> S754_nan /\
  SFdiv 53 1024 (SFadd 53 1024 (ieee_lit 53 1024 1 0) (ieee_lit 53 1024 1 0))
    (ieee_lit 53 1024 2 0) = ieee_lit 53 1024 1 0 /\
  np_median (DT:=float64) [ieee_lit 53 1024 1 0; ieee_lit 53 1024 1 0]
  = ieee_lit 53 1024 1 0 /\
  deviation_normalized (DT:=float64) [ieee_lit 53 1024 1 0; ieee_lit 53 1024 1 0]
  = Ok (replicate (length [ieee_lit 53 1024 1 0; ieee_lit 53 1024 1 0]) S754_nan).
Proof.
  assert (H1 : [ieee_lit 53 1024 1 0; ieee_lit 53 1024 1 0] <> []) by discriminate.
  assert (H2 : forall x, x ∈ [ieee_lit 53 1024 1 0; ieee_lit 53 1024 1 0] ->
                         x = ieee_lit 53 1024 1 0).
  { intros x Hx. apply elem_of_cons in Hx as [->|Hx]; [reflexivity|].
    apply elem_of_cons in Hx as [->|Hx]; [reflexivity|].
    by apply elem_of_nil in Hx. }
  assert (H3 : ieee_lit 53 1024 1 0 <> S754_nan)
    by (intros H; vm_compute in H; discriminate H).
  assert (H4 : SFdiv 53 1024 (SFadd 53 1024 (ieee_lit 53 1024 1 0) (ieee_lit 53 1024 1 0))
                 (ieee_lit 53 1024 2 0) = ieee_lit 53 1024 1 0)
    by (vm_compute; reflexivity).
  split; [exact H1|]. split; [exact H2|]. split; [exact H3|]. split; [exact H4|].
  exact (@constant_map_deviation_is_nan 53 1024 _ _ H1 H2 H3 H4).
Defined.

Lemma preprocess_images_on_uint8_witness :
  Forall uint8 example_pixels /\
  preprocess_images (DT:=float32) (tf_to_float <$> example_pixels)
  = normalized_uint8 <$> example_pixels /\
  normalized_uint8 0 = ieee_lit 24 128 (-1) (-1) /\
  normalized_uint8 255 = ieee_lit 24 128 1 (-1) /\
  (forall v, v ∈ example_pixels ->
     SFleb (ieee_lit 24 128 (-1) (-1)) (normalized_uint8 v) = true /\
     SFleb (normalized_uint8 v) (ieee_lit 24 128 1 (-1)) = true /\
     is_finite (normalized_uint8 v) = true) /\
  (forall v w, v ∈ example_pixels -> w ∈ example_pixels -> v < w ->
     SFltb (normalized_uint8 v) (normalized_uint8 w) = true).
Proof.
  split; [exact example_pixels_are_uint8|].
  exact (@preprocess_images_on_uint8 example_pixels example_pixels_are_uint8).
Defined.

Lemma last_path_image_within_one_ulp_witness :
  1 <= 41 <= 64 /\
  Forall uint8 example_pixels /\
  Forall2 within_one_ulp
    (preprocess_images (DT:=float32) (tf_to_float <$> example_pixels))
    (fractional (DT:=float32) 41
       (preprocess_images (DT:=float32) (tf_to_float <$> example_pixels)) 41).
Proof.
  assert (H1 : 1 <= 41 <= 64) by lia.
  split; [exact H1|]. split; [exact example_pixels_are_uint8|].
  exact (@last_path_image_within_one_ulp 41 example_pixels H1 example_pixels_are_uint8).
Defined.

Lemma scaled_image_fits_the_canvas_witness :
  1 <= 55 <= 512 /\ 1 <= 40 <= 512 /\
  (224 * Z.min 55 40 < Z.max 55 40 ->
   resize_and_pad_image (55, 40) _DEFAULT_IMAGE_SIZE = inl EmptySizeError) /\
  (Z.max 55 40 <= 224 * Z.min 55 40 ->
   exists p,
     resize_and_pad_image (55, 40) _DEFAULT_IMAGE_SIZE = inr p /\
     (Z.max (fst (new_size p)) (snd (new_size p)) = 223 \/
      Z.max (fst (new_size p)) (snd (new_size p)) = 224) /\
     1 <= fst (new_size p) /\ 1 <= snd (new_size p) /\
     (55 <= 40 -> fst (new_size p) <= snd (new_size p) /\ snd (paste_at p) = 0) /\
     (40 <= 55 -> snd (new_size p) <= fst (new_size p) /\ fst (paste_at p) = 0) /\
     0 <= fst (paste_at p) /\ fst (paste_at p) + fst (new_size p) <= 224 /\
     0 <= snd (paste_at p) /\ snd (paste_at p) + snd (new_size p) <= 224).
Proof.
  assert (H1 : 1 <= 55 <= 512) by lia.
  assert (H2 : 1 <= 40 <= 512) by lia.
  split; [exact H1|]. split; [exact H2|].
  exact (@scaled_image_fits_the_canvas 55 40 H1 H2).
Defined.

Lemma example_label_rows_have_two_fields :
  Forall (fun row : list string => (2 <= length row)%nat) example_label_rows.
Proof. repeat constructor. Qed.

Lemma labels_are_trimmed_second_fields_witness :
  Forall (fun row : list string => (2 <= length row)%nat) example_label_rows /\
  exists labels,
    read_labels example_label_rows = Ok labels /\
    length labels = length example_label_rows /\
    forall (k : nat) (row : list string),
      example_label_rows !! k = Some row ->
      exists field,
        row !! 1%nat = Some field /\
        labels !! k = Some (but_last field) /\
        forall name, field = name +:+ "," -> labels !! k = Some name.
Proof.
  split; [exact example_label_rows_have_two_fields|].
  exact (@labels_are_trimmed_second_fields example_label_rows
           example_label_rows_have_two_fields).
Defined.

Lemma example_classes_in_range :
  Forall (fun c => 1 <= c <= Z.of_nat (length [" tench"; " goldfish"; " great white shark"]))
         [2; 1; 3].
Proof. repeat constructor; cbn; lia. Qed.

Lemma five_lines_or_index_error_witness :
  read_labels example_label_rows = Ok [" tench"; " goldfish"; " great white shark"] /\
  Forall (fun c => 1 <= c <= Z.of_nat (length [" tench"; " goldfish"; " great white shark"]))
         [2; 1; 3] /\
  exists printed,
    (forall (j : nat) (line : string),
       printed !! j = Some line ->
       exists c p name,
         [2; 1; 3] !! j = Some c /\ ["0.9"; "0.05"; "0.01"] !! j = Some p /\
         [" tench"; " goldfish"; " great white shark"] !! Z.to_nat (c - 1) = Some name /\
         line = id p +:+ " : " +:+ name) /\
    if decide (5 <= length [2; 1; 3] `min` length ["0.9"; "0.05"; "0.01"])%nat
    then label_cell id example_label_rows [2; 1; 3] ["0.9"; "0.05"; "0.01"]
         = (printed, Ok tt) /\
         length printed = 5%nat
    else label_cell id example_label_rows [2; 1; 3] ["0.9"; "0.05"; "0.01"]
         = (printed, Raise IndexError) /\
         length printed = (length [2; 1; 3] `min` length ["0.9"; "0.05"; "0.01"])%nat.
Proof.
  assert (H1 : read_labels example_label_rows
               = Ok [" tench"; " goldfish"; " great white shark"]) by reflexivity.
  split; [exact H1|]. split; [exact example_classes_in_range|].
  exact (@five_lines_or_index_error string id example_label_rows _ [2; 1; 3]
           ["0.9"; "0.05"; "0.01"] H1 example_classes_in_range).
Defined.

Lemma run_stores_the_weighted_gradients_witness :
  1 <= 2 /\
  well_shaped 2 (toy_network (DT:=float32) 3) (toy_gradient (DT:=float32))
    {| images := float32_image; most_likely_class := 1%nat |} /\
  exists preds rows st,
    gradients_model_fn (DT:=float32) 2 (toy_network (DT:=float32) 3)
      (toy_gradient (DT:=float32)) 2
      {| images := float32_image; most_likely_class := 1%nat |} = Ok preds /\
    predict preds = Ok rows /\
    integration_cell (DT:=float32) 2 "visualization" 2 (Ok rows) ∅ = Ok st /\
    next (gradient_predictions st) = Raise StopIteration /\
    forall (i : nat) (path_image : image spec_float),
      path_features preds !! i = Some path_image ->
      pickle_load (files st) (path_gradient_file "visualization" (Z.of_nat i))
      = Some (PArray (weighted_gradient (DT:=float32) (toy_gradient (DT:=float32))
                        {| images := float32_image; most_likely_class := 1%nat |}
                        path_image)) /\
      exists t,
        toy_network (DT:=float32) 3 path_image
        !! most_likely_class {| images := float32_image; most_likely_class := 1%nat |}
        = Some t /\
        py_getitem (gradients_and_logits st) (Z.of_nat i)
        = Ok (np_sum (DT:=float32)
                (weighted_gradient (DT:=float32) (toy_gradient (DT:=float32))
                   {| images := float32_image; most_likely_class := 1%nat |}
                   path_image), t).
Proof.
  assert (HN : 1 <= 2) by lia.
  assert (Hshape : well_shaped 2 (toy_network (DT:=float32) 3) (toy_gradient (DT:=float32))
                     {| images := float32_image; most_likely_class := 1%nat |})
    by (apply toy_model_well_shaped; [reflexivity | lia]).
  split; [exact HN|]. split; [exact Hshape|].
  exact (@run_stores_the_weighted_gradients spec_float float32 2 _ _ "visualization" 2
           _ ∅ HN Hshape).
Defined.
